(** * bincom_test_solution.py: the colour statistics and the bonus utilities

    A shallow embedding of [src/bincom_test_solution.py].

    - Python [int] is [Z]; [len] is [Z.of_nat (length _)]; [//] and [%] are
      [Z.div] and [Z.modulo] (both round towards minus infinity).
    - Python [float] is IEEE 754 binary64.  The module [Binary64] has the
      two float queries as the interpreter computes them, every operation
      rounded to the nearest binary64 number; [**] goes through the C
      library's [pow], a parameter.  The float queries at the top level,
      with [truediv], [ftruediv] and [py_fsum], are the same computations
      on the exact rationals, without the rounding: they carry the
      statements about sign, zero and range only.
    - [str] is [string], ordered by [String.compare] (code units, as
      Python orders code points).
    - a [dict] (and [Counter], a [dict] subclass) is an association list in
      insertion order with unique keys, since the iteration order of the
      table decides what [max] returns.
    - exceptions are the [Raise] results of [result]; the methods of
      [BincomColorAnalyzer] run in a state-and-exception monad over the
      attributes of [self]. *)

From Stdlib Require Import List ZArith QArith Qpower Qround Qabs String Ascii.
From Stdlib Require Import DecimalString Lia Lqa.
From Stdlib Require Import Permutation Sorted OrdersEx.
From ExtLib Require Import Structures.Monad.
Import ListNotations.
Import MonadNotation.

Local Open Scope string_scope.
Local Open Scope monad_scope.
Local Open Scope Z_scope.

(** ** Exceptions and results *)

Inductive exn : Type :=
| IndexError
| ZeroDivisionError
| ValueError
| AttributeError
| RecursionError
| OverflowError
| RequestException (msg : string).

Inductive result (A : Type) : Type :=
| Ok (a : A)
| Raise (e : exn).
Arguments Ok {A} a.
Arguments Raise {A} e.

#[export] Instance Monad_result : Monad result :=
  {| ret := fun _ a => Ok a;
     bind := fun _ _ c k => match c with Ok a => k a | Raise e => Raise e end |}.

(** ** Built-ins *)

Definition len {A : Type} (l : list A) : Z := Z.of_nat (List.length l).

(** [l[i]]: a negative index counts from the end, an index outside
    [-len(l) .. len(l) - 1] raises [IndexError]. *)
Definition py_index {A : Type} (l : list A) (i : Z) : result A :=
  let j := if i <? 0 then i + len l else i in
  if j <? 0 then Raise IndexError
  else match nth_error l (Z.to_nat j) with
       | Some x => Ok x
       | None => Raise IndexError
       end.

(** [range(lo, hi)] *)
Definition py_range (lo hi : Z) : list Z :=
  map (fun k => lo + Z.of_nat k) (seq 0 (Z.to_nat (hi - lo))).

(** [sum(xs)] over ints: starts from [0] and adds from the left. *)
Definition py_sum (xs : list Z) : Z := fold_left Z.add xs 0.

(** [sum(xs)] over floats, without the rounding of the additions. *)
Definition py_fsum (xs : list Q) : Q := fold_left Qplus xs (inject_Z 0).

(** [a / b] on two ints: true division, without the rounding of the
    quotient ([Binary64.truediv] rounds it). *)
Definition truediv (a b : Z) : result Q :=
  if b =? 0 then Raise ZeroDivisionError else Ok (inject_Z a / inject_Z b)%Q.

(** [x / b] with [x] a float and [b] an int, without the rounding. *)
Definition ftruediv (x : Q) (b : Z) : result Q :=
  if b =? 0 then Raise ZeroDivisionError else Ok (x / inject_Z b)%Q.

(** [max(xs, key=key)]: the first item is the candidate, a later item
    replaces it only when its key is strictly greater; [ValueError] on an
    empty iterable. *)
Fixpoint max_loop {A : Type} (key : A -> Z) (best : A) (rest : list A) : A :=
  match rest with
  | [] => best
  | item :: rest' =>
      if key best <? key item then max_loop key item rest'
      else max_loop key best rest'
  end.

Definition py_max {A : Type} (key : A -> Z) (xs : list A) : result A :=
  match xs with
  | [] => Raise ValueError
  | x :: rest => Ok (max_loop key x rest)
  end.

(** [sorted(xs)] on strings: a stable ascending sort that compares with
    [<] only.  Each element goes in front of the first element that is
    strictly greater, as in the binary insertion of CPython's list sort. *)
Fixpoint insort (x : string) (l : list string) : list string :=
  match l with
  | [] => [x]
  | y :: l' => if String.ltb x y then x :: y :: l' else y :: insort x l'
  end.

Definition sorted (l : list string) : list string :=
  fold_left (fun acc x => insort x acc) l [].

(** ** dict and Counter *)

Definition dict (V : Type) : Type := list (string * V).

(** [d.get(k, default)] *)
Fixpoint dict_get {V : Type} (k : string) (default : V) (d : dict V) : V :=
  match d with
  | [] => default
  | (k', v) :: d' => if String.eqb k' k then v else dict_get k default d'
  end.

(** [d[k] = v]: an existing key keeps its position, a new key goes last. *)
Fixpoint dict_set {V : Type} (k : string) (v : V) (d : dict V) : dict V :=
  match d with
  | [] => [(k, v)]
  | (k', v') :: d' =>
      if String.eqb k' k then (k', v) :: d' else (k', v') :: dict_set k v d'
  end.

Definition items {V : Type} (d : dict V) : list (string * V) := d.
Definition keys {V : Type} (d : dict V) : list string := map fst d.
Definition values {V : Type} (d : dict V) : list V := map snd d.

(** [Counter(iterable)]: for each element in turn,
    [self[elem] = self.get(elem, 0) + 1]. *)
Definition count_elem (d : dict Z) (elem : string) : dict Z :=
  dict_set elem (dict_get elem 0 d + 1) d.

Definition Counter (iterable : list string) : dict Z :=
  fold_left count_elem iterable [].

(** Truth value of a container: empty is false. *)
Definition truthy {A : Type} (l : list A) : bool :=
  match l with [] => false | _ :: _ => true end.

(** ** The analyzer object

    [BincomColorAnalyzer()] yields an object without attributes: the class
    names its initialiser [init], so nothing runs at construction.  An
    attribute is [None] until it is assigned; reading it before raises
    [AttributeError]. *)

Record analyzer : Type := mk_analyzer {
  url : option string;
  colors : option (list string);
  color_frequencies : option (dict Z)
}.

Definition fresh_analyzer : analyzer :=
  {| url := None; colors := None; color_frequencies := None |}.

(** A method body: it reads and writes [self] and returns or raises; the
    writes made before an exception stay. *)
Definition M (A : Type) : Type := analyzer -> result A * analyzer.

#[export] Instance Monad_M : Monad M :=
  {| ret := fun _ a self => (Ok a, self);
     bind := fun _ _ c k self =>
       match c self with
       | (Ok a, self') => k a self'
       | (Raise e, self') => (Raise e, self')
       end |}.

Definition lift {A : Type} (r : result A) : M A := fun self => (r, self).

Definition getattr {A : Type} (field : analyzer -> option A) : M A :=
  fun self =>
    match field self with
    | Some v => (Ok v, self)
    | None => (Raise AttributeError, self)
    end.

Definition set_url (v : string) : M unit :=
  fun self => (Ok tt, {| url := Some v; colors := colors self;
                         color_frequencies := color_frequencies self |}).

Definition set_colors (v : list string) : M unit :=
  fun self => (Ok tt, {| url := url self; colors := Some v;
                         color_frequencies := color_frequencies self |}).

Definition set_color_frequencies (v : dict Z) : M unit :=
  fun self => (Ok tt, {| url := url self; colors := colors self;
                         color_frequencies := Some v |}).

(** [try: body except Exception as e: handler(e)] *)
Definition try_except {A : Type} (body : M A) (handler : exn -> M A) : M A :=
  fun self =>
    match body self with
    | (Ok a, self') => (Ok a, self')
    | (Raise e, self') => handler e self'
    end.

(** A number returned by a query: the [int] literal [0] or a [float],
    here the rational that the float approximates. *)
Inductive pynum : Type :=
| PyInt (z : Z)
| PyFloat (q : Q).

(** The method [init] (never called by the class itself). *)
Definition init : M unit :=
  set_url "https://drive.google.com/open?id=1nf9WMDjZWlUnlnKyz7qomEYDdtWW11Jf" ;;
  set_colors [] ;;
  set_color_frequencies [].

(** The pattern handed to [re.findall]. *)
Definition color_pattern : string :=
  "<td[^>]*>(RED|GREEN|BLUE|YELLOW|ORANGE|BLACK|WHITE|BROWN|PINK|PURPLE|GRAY)</td>".

Section Acquisition.

(** The world outside the script: [requests.get(u).text] returns the
    body or raises, [str.upper] and [re.findall] are the library's. *)
Variable requests_get_text : string -> result string.
Variable str_upper : string -> string.
Variable re_findall : string -> string -> list string.

(** [fetch_and_parse_html]; the [print] of the handler is console output
    and is left out. *)
Definition fetch_and_parse_html : M bool :=
  try_except
    (u <- getattr url ;;
     html_content <- lift (requests_get_text u) ;;
     set_colors (re_findall color_pattern (str_upper html_content)) ;;
     cs <- getattr colors ;;
     (if negb (truthy cs)
      then set_colors ["RED"; "GREEN"; "BLUE"; "RED"; "GREEN"; "BLUE"; "RED";
                       "YELLOW"; "BLUE"; "RED"; "GREEN"; "RED"; "BLUE"; "GREEN"]
      else ret tt) ;;
     cs <- getattr colors ;;
     set_color_frequencies (Counter cs) ;;
     ret true)
    (fun e =>
     set_colors ["RED"; "GREEN"; "BLUE"; "RED"; "GREEN"; "BLUE"; "RED";
                 "YELLOW"; "BLUE"; "RED"; "GREEN"; "RED"; "BLUE"; "GREEN"] ;;
     cs <- getattr colors ;;
     set_color_frequencies (Counter cs) ;;
     ret false).

End Acquisition.

(** ** The queries

    [get_color_variance] and [get_red_probability] are given here with
    exact arithmetic and in [Binary64] below with the arithmetic of the
    machine. *)

Definition get_mean_color : M (option string) :=
  freqs <- getattr color_frequencies ;;
  if negb (truthy freqs) then ret None
  else
    best <- lift (py_max (fun x => snd x) (items freqs)) ;;
    ret (Some (fst best)).

Definition get_most_frequent_color : M (option string) :=
  get_mean_color.

Definition get_median_color : M (option string) :=
  cs <- getattr colors ;;
  if negb (truthy cs) then ret None
  else
    let sorted_colors := sorted cs in
    let n := len sorted_colors in
    if n mod 2 =? 1 then
      c <- lift (py_index sorted_colors (n / 2)) ;; ret (Some c)
    else
      c <- lift (py_index sorted_colors ((n - 1) / 2)) ;; ret (Some c).

Definition get_color_variance : M pynum :=
  cs <- getattr colors ;;
  if negb (truthy cs) then ret (PyInt 0)
  else
    cs <- getattr colors ;;
    let n := len cs in
    freqs <- getattr color_frequencies ;;
    let frequencies := values freqs in
    mean_freq <- lift (truediv n (len frequencies)) ;;
    let squares :=
      map (fun freq => ((inject_Z freq - mean_freq) ^ 2)%Q) frequencies in
    variance <- lift (ftruediv (py_fsum squares) (len frequencies)) ;;
    ret (PyFloat variance).

Definition get_red_probability : M pynum :=
  cs <- getattr colors ;;
  if negb (truthy cs) then ret (PyInt 0)
  else
    freqs <- getattr color_frequencies ;;
    let red_count := dict_get "RED" 0 freqs in
    cs <- getattr colors ;;
    p <- lift (truediv red_count (len cs)) ;;
    ret (PyFloat p).

(** ** The queries on the floats of the machine

    A Python [float] is an IEEE 754 binary64 number.  [Binary64] carries a
    finite one as the rational it stands for (the sign of a zero is not
    kept) and rounds the exact result of each operation to the nearest
    binary64 number, ties to the even significand, as the hardware does
    for [+], [-] and [/] and as CPython does for [int / int] and for the
    conversion of an [int]. *)

Module Binary64.

Inductive float64 : Type :=
| Finite (q : Q)
| Infinite (negative : bool)
| NaN.

Definition pow2 (e : Z) : Q := (2 ^ e)%Q.

(** [floor (log2 x)] for [x > 0]. *)
Definition flog2 (x : Q) : Z :=
  let l := Z.log2 (Qnum x) - Z.log2 (Z.pos (Qden x)) in
  if Qle_bool (pow2 l) x then l else l - 1.

(** The nearest integer, the even one of two that are equally near. *)
Definition round_half_even (y : Q) : Z :=
  let f := Qfloor y in
  match Qcompare (y - inject_Z f) (1 # 2) with
  | Lt => f
  | Gt => f + 1
  | Eq => if Z.even f then f else f + 1
  end.

(** The exponent of the last place of the binary64 numbers around
    [x >= 0]: 53 significant bits, and never below [-1074], the last place
    of the subnormal numbers. *)
Definition exponent (x : Q) : Z := Z.max (flog2 x - 52) (-1074).

Definition round_magnitude (x : Q) : Q :=
  let e := exponent x in
  Qred (inject_Z (round_half_even (x / pow2 e)) * pow2 e).

(** Rounding to nearest, ties to even, with the exponent unbounded
    above: the callers test the result against [2 ^ 1024]. *)
Definition round64 (x : Q) : Q :=
  if Qle_bool 0 x then round_magnitude x else (- round_magnitude (- x))%Q.

Definition overflows (r : Q) : bool := Qle_bool (pow2 1024) (Qabs r).

Definition is_negative (r : Q) : bool := negb (Qle_bool 0 r).

(** The float an operation returns when its exact result is [x]. *)
Definition fround (x : Q) : float64 :=
  let r := round64 x in
  if overflows r then Infinite (is_negative r) else Finite r.

(** An [int] operand of a float operation: converted to the nearest
    float, [OverflowError] when that is out of range. *)
Definition float_of_int (z : Z) : result Q :=
  let r := round64 (inject_Z z) in
  if overflows r then Raise OverflowError else Ok r.

(** [a / b] on two ints: the correctly rounded quotient. *)
Definition truediv (a b : Z) : result Q :=
  if b =? 0 then Raise ZeroDivisionError
  else
    let r := round64 (inject_Z a / inject_Z b) in
    if overflows r then Raise OverflowError else Ok r.

Definition fneg (x : float64) : float64 :=
  match x with
  | Finite a => Finite (- a)
  | Infinite s => Infinite (negb s)
  | NaN => NaN
  end.

Definition fadd (x y : float64) : float64 :=
  match x, y with
  | NaN, _ => NaN
  | _, NaN => NaN
  | Finite a, Finite b => fround (a + b)
  | Infinite s, Finite _ => Infinite s
  | Finite _, Infinite s => Infinite s
  | Infinite s, Infinite t => if Bool.eqb s t then Infinite s else NaN
  end.

Definition fsub (x y : float64) : float64 := fadd x (fneg y).

(** [x / b] with [x] a float and [b] an int. *)
Definition ftruediv (x : float64) (b : Z) : result float64 :=
  d <- float_of_int b ;;
  if Qeq_bool d 0 then Raise ZeroDivisionError
  else
    match x with
    | Finite a => Ok (fround (a / d))
    | Infinite s => Ok (Infinite (xorb s (is_negative d)))
    | NaN => Ok NaN
    end.

(** A number returned by a query: the [int] literal [0] or a [float]. *)
Inductive pynum : Type :=
| PyInt (z : Z)
| PyFloat (x : float64).

(** The value of a returned number, when it is finite. *)
Definition num_value (v : pynum) : option Q :=
  match v with
  | PyInt z => Some (inject_Z z)
  | PyFloat (Finite q) => Some q
  | PyFloat _ => None
  end.

Section Variance.

(** [pow] of the C library at a finite base greater than 0 and other
    than 1: its result, or [None] when it reports a result out of range.
    The language does not say how the library rounds, and a square by
    [pow] is not always the square by [*]. *)
Variable libm_pow : Q -> Q -> option Q.

(** [x ** 2] as [float_pow] of CPython computes it: the special bases are
    answered without the library, a negative base is passed as its
    magnitude, a result out of range is an [OverflowError]. *)
Definition float_pow2 (x : float64) : result float64 :=
  match x with
  | NaN => Ok NaN
  | Infinite _ => Ok (Infinite false)
  | Finite a =>
      if Qeq_bool a 0 then Ok (Finite 0)
      else if Qeq_bool (Qabs a) 1 then Ok (Finite 1)
      else match libm_pow (Qabs a) 2 with
           | Some r => Ok (Finite r)
           | None => Raise OverflowError
           end
  end.

(** [sum((freq - mean_freq) ** 2 for freq in frequencies)]: each term is
    computed when [sum] asks for it and added to the total of the terms
    before it, the first to [0]; CPython up to 3.11 rounds every
    addition (later versions carry a correction along). *)
Fixpoint sum_squares (mean_freq : Q) (frequencies : list Z) (total : float64)
  : result float64 :=
  match frequencies with
  | [] => Ok total
  | freq :: rest =>
      f <- float_of_int freq ;;
      square <- float_pow2 (fsub (Finite f) (Finite mean_freq)) ;;
      sum_squares mean_freq rest (fadd total square)
  end.

Definition get_color_variance : M pynum :=
  cs <- getattr colors ;;
  if negb (truthy cs) then ret (PyInt 0)
  else
    cs <- getattr colors ;;
    let n := len cs in
    freqs <- getattr color_frequencies ;;
    let frequencies := values freqs in
    mean_freq <- lift (truediv n (len frequencies)) ;;
    total <- lift (sum_squares mean_freq frequencies (Finite 0)) ;;
    variance <- lift (ftruediv total (len frequencies)) ;;
    ret (PyFloat variance).

End Variance.

Definition get_red_probability : M pynum :=
  cs <- getattr colors ;;
  if negb (truthy cs) then ret (PyInt 0)
  else
    freqs <- getattr color_frequencies ;;
    let red_count := dict_get "RED" 0 freqs in
    cs <- getattr colors ;;
    p <- lift (truediv red_count (len cs)) ;;
    ret (PyFloat (Finite p)).

End Binary64.

(** ** Bonus utilities *)

(** [recursive_search(numbers, target, index=0)].  Each call takes one
    frame of the interpreter's stack: [depth] is the number of nested
    calls the interpreter still allows when the function is called (its
    recursion limit less the frames already in use), and a call made when
    none is left raises [RecursionError]. *)
Fixpoint recursive_search (depth : nat) (numbers : list Z) (target : Z)
    (index : Z) : result Z :=
  match depth with
  | O => Raise RecursionError
  | S depth' =>
      if index >=? len numbers then Ok (-1)
      else
        x <- py_index numbers index ;;
        if x =? target then Ok index
        else recursive_search depth' numbers target (index + 1)
  end.

(** The recursion limit of a CPython interpreter that has not been told
    otherwise ([sys.getrecursionlimit()]); the script does not change
    it. *)
Definition default_recursion_limit : nat := 1000.

(** The body of the loop of [sum_first_50_fibonacci]:
    [fib_sequence.append(fib_sequence[i-1] + fib_sequence[i-2])]. *)
Definition fib_append (fib_sequence : list Z) (i : Z) : result (list Z) :=
  a <- py_index fib_sequence (i - 1) ;;
  b <- py_index fib_sequence (i - 2) ;;
  ret (fib_sequence ++ [a + b])%list.

(** [for i in r: s = body(s, i)], stopping at the first exception. *)
Fixpoint for_each {S : Type} (body : S -> Z -> result S) (s : S) (r : list Z)
  : result S :=
  match r with
  | [] => ret s
  | i :: r' => s' <- body s i ;; for_each body s' r'
  end.

Definition sum_first_50_fibonacci : result Z :=
  fib_sequence <- for_each fib_append [0; 1] (py_range 2 50) ;;
  ret (py_sum fib_sequence).

(** ** Other state: the random generator and the database session

    Code that talks to something other than [self] runs in the same kind
    of monad over that other state. *)

Definition ST (S A : Type) : Type := S -> result A * S.

#[export] Instance Monad_ST (S : Type) : Monad (ST S) :=
  {| ret := fun _ a s => (Ok a, s);
     bind := fun _ _ c k s =>
       match c s with
       | (Ok a, s') => k a s'
       | (Raise e, s') => (Raise e, s')
       end |}.

Definition st_lift {S A : Type} (r : result A) : ST S A := fun s => (r, s).

(** [try: body except Exception: handler] over any state. *)
Definition st_try {S A : Type} (body : ST S A) (handler : exn -> ST S A)
  : ST S A :=
  fun s =>
    match body s with
    | (Ok a, s') => (Ok a, s')
    | (Raise e, s') => handler e s'
    end.

(** [for x in xs: body(x)], stopping at the first exception. *)
Fixpoint st_for {S A : Type} (xs : list A) (body : A -> ST S unit)
  : ST S unit :=
  match xs with
  | [] => ret tt
  | x :: xs' => body x ;; st_for xs' body
  end.

(** [[body(x) for x in xs]], evaluated from the left. *)
Fixpoint st_collect {S A B : Type} (xs : list A) (body : A -> ST S B)
  : ST S (list B) :=
  match xs with
  | [] => ret []
  | x :: xs' => y <- body x ;; ys <- st_collect xs' body ;; ret (y :: ys)
  end.

(** ** Random binary number *)

(** The generator of module [random]: an endless supply of raw values and
    the number of values drawn so far. *)
Record rng : Type := mk_rng {
  raw : nat -> nat;
  drawn : nat
}.

(** [random.randint(a, b)]: some integer of [a .. b], [ValueError] on an
    empty range. *)
Definition randint (a b : Z) : ST rng Z :=
  fun g =>
    if b <? a then (Raise ValueError, g)
    else (Ok (a + Z.of_nat (raw g (drawn g)) mod (b - a + 1)),
          mk_rng (raw g) (S (drawn g))).

(** [str(n)] on an int. *)
Definition str_of_int (n : Z) : string :=
  NilZero.string_of_int (Z.to_int n).

(** [''.join(parts)] *)
Definition str_join (parts : list string) : string :=
  String.concat "" parts.

(** [int(s, 2)] on the strings that consist of binary digits, most
    significant first.  (Python also takes surrounding blanks, a sign, a
    [0b] prefix and underscores; the script passes digits only.)  An empty
    string or another character raises [ValueError]. *)
Definition bit_of_ascii (c : ascii) : option Z :=
  if Ascii.eqb c "0" then Some 0
  else if Ascii.eqb c "1" then Some 1
  else None.

Fixpoint parse_bits (acc : Z) (s : string) : result Z :=
  match s with
  | EmptyString => Ok acc
  | String c s' =>
      match bit_of_ascii c with
      | Some b => parse_bits (2 * acc + b) s'
      | None => Raise ValueError
      end
  end.

Definition int_base2 (s : string) : result Z :=
  match s with
  | EmptyString => Raise ValueError
  | String _ _ => parse_bits 0 s
  end.

Definition generate_binary_to_decimal : ST rng (string * Z) :=
  parts <- st_collect (py_range 0 4)
             (fun _ => n <- randint 0 1 ;; ret (str_of_int n)) ;;
  let binary_number := str_join parts in
  decimal_number <- st_lift (int_base2 binary_number) ;;
  ret (binary_number, decimal_number).

(** ** Saving to PostgreSQL *)

(** A parameter of a query. *)
Inductive sql_arg : Type :=
| SqlText (s : string)
| SqlInt (n : Z).

(** The calls that [save_to_postgresql] makes on [psycopg2]. *)
Inductive db_call : Type :=
| Connect (params : dict string)
| Cursor
| Execute (query : string) (args : list sql_arg)
| Commit
| CursorClose
| ConnClose.

Definition create_table_query : string :=
"
            CREATE TABLE IF NOT EXISTS color_frequencies (
                color VARCHAR(50) PRIMARY KEY,
                frequency INTEGER NOT NULL
            )
            ".

Definition insert_query : string :=
"
                INSERT INTO color_frequencies (color, frequency)
                VALUES (%s, %s)
                ON CONFLICT (color) DO UPDATE SET frequency = EXCLUDED.frequency
                ".

(** [d.update(other)] *)
Definition dict_update {V : Type} (d other : dict V) : dict V :=
  fold_left (fun acc kv => dict_set (fst kv) (snd kv) acc) other d.

Section Persistence.

(** The database: given the calls made so far, the last one included,
    whether that last call raises. *)
Variable db_raises : list db_call -> option exn.

(** One call: it is made (and logged), then it returns or raises. *)
Definition db_do (c : db_call) : ST (list db_call) unit :=
  fun log =>
    let log' := (log ++ [c])%list in
    match db_raises log' with
    | Some e => (Raise e, log')
    | None => (Ok tt, log')
    end.

(** [save_to_postgresql(db_params)]; it reads [self] and writes nothing
    to it.  The [print]s are console output and are left out. *)
Definition save_to_postgresql (db_params : option (dict string))
    (self : analyzer) : ST (list db_call) bool :=
  match color_frequencies self with
  | None => st_lift (Raise AttributeError)
  | Some freqs =>
      if negb (truthy freqs) then ret false
      else
        let default_params :=
          [("host", "localhost"); ("database", "bincom_colors");
           ("user", "postgres"); ("password", "password")] in
        let default_params :=
          match db_params with
          | Some p => if truthy p then dict_update default_params p
                      else default_params
          | None => default_params
          end in
        st_try
          (db_do (Connect default_params) ;;
           db_do Cursor ;;
           db_do (Execute create_table_query []) ;;
           st_for (items freqs)
             (fun item =>
                let '(color, frequency) := item in
                db_do (Execute insert_query [SqlText color; SqlInt frequency])) ;;
           db_do Commit ;;
           db_do CursorClose ;;
           db_do ConnClose ;;
           ret true)
          (fun e => ret false)
  end.

End Persistence.

(** ** Reference notions used in the statements *)

(** Occurrences of a label in a sequence. *)
Definition occurrences (cs : list string) (c : string) : Z :=
  Z.of_nat (count_occ string_dec cs c).

(** The distinct labels of a sequence. *)
Definition distinct (cs : list string) : list string := nodup string_dec cs.

(** Position of the first occurrence, [len cs] when there is none. *)
Fixpoint first_index (c : string) (cs : list string) : nat :=
  match cs with
  | [] => 0
  | x :: cs' => if String.eqb x c then 0%nat else S (first_index c cs')
  end.


(** The Fibonacci numbers with [F0 = 0] and [F1 = 1]. *)
Fixpoint fib_pair (n : nat) : Z * Z :=
  match n with
  | O => (0, 1)
  | S n' => let '(a, b) := fib_pair n' in (b, a + b)
  end.

Definition fib (n : nat) : Z := fst (fib_pair n).


(** An analyzer whose table is the one derived from its sequence. *)
Definition derived (self : analyzer) (cs : list string) : Prop :=
  colors self = Some cs /\ color_frequencies self = Some (Counter cs).

Definition string_le (a b : string) : Prop := String.leb a b = true.

(** The fallback sequence as the specification documents it. *)
Definition fallback_sequence : list string :=
  ["RED"; "GREEN"; "BLUE"; "RED"; "GREEN"; "BLUE"; "RED";
   "YELLOW"; "BLUE"; "RED"; "GREEN"; "RED"; "BLUE"; "GREEN"].

(** Text without the lower-case letter t. *)
Fixpoint no_lower_t (s : string) : Prop :=
  match s with
  | EmptyString => True
  | String c s' => c <> "t"%char /\ no_lower_t s'
  end.

(** [str.upper] on ASCII text. *)
Definition ascii_upper_char (c : ascii) : ascii :=
  let n := nat_of_ascii c in
  if ((97 <=? n) && (n <=? 122))%nat then ascii_of_nat (n - 32) else c.

Fixpoint ascii_upper (s : string) : string :=
  match s with
  | EmptyString => EmptyString
  | String c s' => String (ascii_upper_char c) (ascii_upper s')
  end.

(** The names between the parentheses of [color_pattern], in its order. *)
Definition pattern_colors : list string :=
  ["RED"; "GREEN"; "BLUE"; "YELLOW"; "ORANGE"; "BLACK"; "WHITE"; "BROWN";
   "PINK"; "PURPLE"; "GRAY"].

(** What is left of [s] after its prefix [p], if it starts with it. *)
Fixpoint strip_prefix (p s : string) : option string :=
  match p, s with
  | EmptyString, _ => Some s
  | String a p', String b s' => if Ascii.eqb a b then strip_prefix p' s' else None
  | String _ _, EmptyString => None
  end.

(** What is left after the part of [color_pattern] that matches up to
    the first ">". *)
Fixpoint after_first_gt (s : string) : option string :=
  match s with
  | EmptyString => None
  | String c s' => if Ascii.eqb c ">"%char then Some s' else after_first_gt s'
  end.

(** One of the names followed by the closing tag: the name and the rest. *)
Fixpoint cell_color (names : list string) (s : string)
  : option (string * string) :=
  match names with
  | [] => None
  | name :: names' =>
      match strip_prefix (name ++ "</td>") s with
      | Some rest => Some (name, rest)
      | None => cell_color names' s
      end
  end.

(** A match of [color_pattern] at the start of [s]. *)
Definition match_cell (s : string) : option (string * string) :=
  match strip_prefix "<td" s with
  | None => None
  | Some s1 =>
      match after_first_gt s1 with
      | None => None
      | Some s2 => cell_color pattern_colors s2
      end
  end.

(** The matches of [color_pattern] from left to right, none overlapping
    another; [steps] bounds the positions tried. *)
Fixpoint findall_cells (steps : nat) (s : string) : list string :=
  match steps with
  | O => []
  | S steps' =>
      match match_cell s with
      | Some (name, rest) => name :: findall_cells steps' rest
      | None =>
          match s with
          | EmptyString => []
          | String _ s' => findall_cells steps' s'
          end
      end
  end.

(** [re.findall] for the one pattern of the script. *)
Definition findall_color_cells (pattern text : string) : list string :=
  if String.eqb pattern color_pattern
  then findall_cells (S (String.length text)) text
  else [].

(** A method that leaves [self] as it found it. *)
Definition read_only {A : Type} (q : M A) : Prop :=
  forall self, snd (q self) = self.

(** A method whose second call in a row returns what the first did. *)
Definition repeatable {A : Type} (q : M A) : Prop :=
  forall self, fst (q (snd (q self))) = fst (q self).

(** The rational value of a returned number. *)
Definition num_value (v : pynum) : Q :=
  match v with
  | PyInt z => inject_Z z
  | PyFloat q => q
  end.




(** A C library whose [pow] returns the correctly rounded square. *)
Definition correctly_rounded_square (x y : Q) : option Q :=
  Some (Binary64.round64 (x * x)).

(** The index of the median in a sorted sequence of length [n]. *)
Definition median_index (n : Z) : Z :=
  if Z.odd n then n / 2 else (n - 1) / 2.

(** A search result moved from a suffix back to the whole list. *)
Definition shift_result (index : Z) (r : result Z) : result Z :=
  match r with
  | Ok i => Ok (if i =? -1 then -1 else index + i)
  | Raise e => Raise e
  end.

(** How many labels of a sequence pass a test. *)
Definition count_if (p : string -> bool) (cs : list string) : Z :=
  len (filter p cs).

(** The [i]-th bit that [randint(0, 1)] will return from a generator. *)
Definition draw_bit (g : rng) (i : nat) : Z :=
  Z.of_nat (raw g (i + drawn g)) mod 2.

(** Strings made of the characters "0" and "1" only. *)
Fixpoint binary_digits (s : string) : Prop :=
  match s with
  | EmptyString => True
  | String c s' => (c = "0"%char \/ c = "1"%char) /\ binary_digits s'
  end.

(** The upsert that [save_to_postgresql] issues for one table entry. *)
Definition upsert_call (item : string * Z) : db_call :=
  Execute insert_query [SqlText (fst item); SqlInt (snd item)].

(** The calls of a save that runs to its end, in order. *)
Definition save_plan (params : dict string) (freqs : dict Z) : list db_call :=
  ([Connect params; Cursor; Execute create_table_query []]
   ++ map upsert_call (items freqs)
   ++ [Commit; CursorClose; ConnClose])%list.

(** The connection parameters the script starts from. *)
Definition default_db_params : dict string :=
  [("host", "localhost"); ("database", "bincom_colors");
   ("user", "postgres"); ("password", "password")].

(** The parameters [save_to_postgresql] opens the connection with. *)
Definition connect_params (db_params : option (dict string)) : dict string :=
  match db_params with
  | Some p => if truthy p then dict_update default_db_params p
              else default_db_params
  | None => default_db_params
  end.

(** Making the calls of a list one after the other until one raises:
    the exception, if any, and the calls made. *)
Fixpoint run_calls (db_raises : list db_call -> option exn)
    (plan : list db_call) (log : list db_call) : option exn * list db_call :=
  match plan with
  | [] => (None, log)
  | c :: plan' =>
      match db_raises (log ++ [c])%list with
      | Some e => (Some e, (log ++ [c])%list)
      | None => run_calls db_raises plan' (log ++ [c])%list
      end
  end.

(** * Properties *)

(** ** Association lists as dicts *)

Lemma py_sum_from (xs : list Z) (a : Z) :
  fold_left Z.add xs a = a + py_sum xs.
Proof.
  unfold py_sum. revert a.
  induction xs as [|x xs IH]; intros a; simpl; [lia|].
  rewrite (IH (a + x)), (IH x). lia.
Qed.

Lemma py_sum_cons (x : Z) (xs : list Z) : py_sum (x :: xs) = x + py_sum xs.
Proof. unfold py_sum at 1. simpl. apply py_sum_from. Qed.

Lemma dict_get_set_same {V : Type} (k : string) (v dflt : V) (d : dict V) :
  dict_get k dflt (dict_set k v d) = v.
Proof.
  induction d as [|[k' v'] d IH]; simpl.
  - now rewrite String.eqb_refl.
  - destruct (String.eqb k' k) eqn:E; simpl; rewrite E; auto.
Qed.

Lemma dict_get_set_other {V : Type} (k k' : string) (v dflt : V) (d : dict V) :
  k <> k' -> dict_get k dflt (dict_set k' v d) = dict_get k dflt d.
Proof.
  intros Hne.
  induction d as [|[k0 v0] d IH]; simpl.
  - destruct (String.eqb_spec k' k); congruence.
  - destruct (String.eqb_spec k0 k'); simpl.
    + subst k0. destruct (String.eqb_spec k' k); congruence.
    + now rewrite IH.
Qed.

Lemma keys_dict_set_in {V : Type} (k : string) (v : V) (d : dict V) :
  In k (keys d) -> keys (dict_set k v d) = keys d.
Proof.
  unfold keys.
  induction d as [|[k0 v0] d IH]; simpl; [tauto|].
  intros Hin. destruct (String.eqb_spec k0 k); simpl; [reflexivity|].
  f_equal. apply IH. destruct Hin; congruence.
Qed.

Lemma keys_dict_set_new {V : Type} (k : string) (v : V) (d : dict V) :
  ~ In k (keys d) -> keys (dict_set k v d) = (keys d ++ [k])%list.
Proof.
  unfold keys.
  induction d as [|[k0 v0] d IH]; simpl; [reflexivity|].
  intros Hnin. destruct (String.eqb_spec k0 k); simpl; [tauto|].
  f_equal. apply IH. tauto.
Qed.

Lemma values_dict_set_sum (k : string) (v : Z) (d : dict Z) :
  py_sum (values (dict_set k v d)) = py_sum (values d) - dict_get k 0 d + v.
Proof.
  unfold values.
  induction d as [|[k0 v0] d IH]; simpl.
  - rewrite py_sum_cons. unfold py_sum. simpl. lia.
  - destruct (String.eqb k0 k); simpl; rewrite !py_sum_cons; lia.
Qed.

Lemma dict_get_values {V : Type} (d : dict V) (dflt : V) :
  NoDup (keys d) -> values d = map (fun k => dict_get k dflt d) (keys d).
Proof.
  unfold values, keys.
  induction d as [|[k v] d IH]; simpl; [reflexivity|].
  intros Hnd. inversion Hnd as [|? ? Hnin Hnd']; subst.
  rewrite String.eqb_refl. f_equal.
  rewrite (IH Hnd'). rewrite !map_map.
  apply map_ext_in. intros [k1 v1] Hin. simpl.
  destruct (String.eqb_spec k k1); [|reflexivity].
  subst k1. exfalso. apply Hnin. apply in_map_iff. now exists (k, v1).
Qed.

Lemma dict_get_item {V : Type} (d : dict V) (dflt : V) (k : string) (v : V) :
  NoDup (keys d) -> In (k, v) (items d) -> dict_get k dflt d = v.
Proof.
  unfold items, keys.
  induction d as [|[k0 v0] d IH]; simpl; [tauto|].
  intros Hnd Hin. inversion Hnd as [|? ? Hnin Hnd']; subst.
  destruct Hin as [Heq|Hin].
  - inversion Heq; subst. now rewrite String.eqb_refl.
  - destruct (String.eqb_spec k0 k); [|auto].
    subst k0. exfalso. apply Hnin. apply in_map_iff. now exists (k, v).
Qed.

(** ** Counter *)

Lemma Counter_snoc (cs : list string) (c : string) :
  Counter (cs ++ [c]) = count_elem (Counter cs) c.
Proof. unfold Counter. now rewrite fold_left_app. Qed.

Lemma occurrences_snoc (cs : list string) (c k : string) :
  occurrences (cs ++ [c]) k
  = occurrences cs k + (if String.eqb c k then 1 else 0).
Proof.
  unfold occurrences. rewrite count_occ_app. simpl.
  destruct (string_dec c k) as [->|Hne].
  - rewrite String.eqb_refl. lia.
  - destruct (String.eqb_spec c k); [congruence|lia].
Qed.

Lemma Counter_get (cs : list string) (k : string) :
  dict_get k 0 (Counter cs) = occurrences cs k.
Proof.
  induction cs as [|c cs IH] using rev_ind; [reflexivity|].
  rewrite Counter_snoc, occurrences_snoc. unfold count_elem.
  destruct (String.eqb_spec c k) as [->|Hne].
  - rewrite dict_get_set_same. lia.
  - rewrite dict_get_set_other by congruence. lia.
Qed.

Lemma Counter_keys_snoc (cs : list string) (c : string) :
  keys (Counter (cs ++ [c]))
  = if in_dec string_dec c (keys (Counter cs))
    then keys (Counter cs) else (keys (Counter cs) ++ [c])%list.
Proof.
  rewrite Counter_snoc. unfold count_elem.
  destruct (in_dec string_dec c (keys (Counter cs))).
  - now apply keys_dict_set_in.
  - now apply keys_dict_set_new.
Qed.

Lemma Counter_keys_In (cs : list string) (k : string) :
  In k (keys (Counter cs)) <-> In k cs.
Proof.
  revert k.
  induction cs as [|c cs IH] using rev_ind; intros k; [reflexivity|].
  rewrite Counter_keys_snoc.
  destruct (in_dec string_dec c (keys (Counter cs))) as [Hin|Hnin];
    rewrite ?in_app_iff; simpl; rewrite IH; [|tauto].
  apply IH in Hin. intuition (subst; auto).
Qed.

Lemma Counter_keys_NoDup (cs : list string) : NoDup (keys (Counter cs)).
Proof.
  induction cs as [|c cs IH] using rev_ind; [constructor|].
  rewrite Counter_keys_snoc.
  destruct (in_dec string_dec c (keys (Counter cs))) as [Hin|Hnin]; [assumption|].
  apply NoDup_app; [assumption|repeat constructor; simpl; tauto|].
  intros x Hx [<-|[]]. contradiction.
Qed.

Lemma Counter_sum (cs : list string) :
  py_sum (values (Counter cs)) = len cs.
Proof.
  unfold len.
  induction cs as [|c cs IH] using rev_ind; [reflexivity|].
  rewrite Counter_snoc. unfold count_elem.
  rewrite values_dict_set_sum, IH, length_app. simpl. lia.
Qed.

Lemma Counter_truthy (cs : list string) :
  truthy (Counter cs) = truthy cs.
Proof.
  destruct cs as [|c cs]; [reflexivity|].
  assert (Hin : In c (keys (Counter (c :: cs))))
    by (apply Counter_keys_In; now left).
  destruct (Counter (c :: cs)); [destruct Hin|reflexivity].
Qed.

Lemma Counter_items (cs : list string) (k : string) (v : Z) :
  In (k, v) (items (Counter cs)) -> In k cs /\ v = occurrences cs k.
Proof.
  intros Hin. split.
  - apply Counter_keys_In. unfold keys. apply in_map_iff. now exists (k, v).
  - rewrite <- Counter_get. symmetry.
    apply dict_get_item; [apply Counter_keys_NoDup|assumption].
Qed.

(** ** max *)

(** [max_loop] returns the candidate it started with when nothing later is
    strictly greater, and otherwise the first later item that is strictly
    greater than everything before it and at least everything after it. *)
Lemma max_loop_first {A : Type} (key : A -> Z) (rest : list A) (best : A) :
  let r := max_loop key best rest in
  (r = best /\ Forall (fun y => key y <= key best) rest)
  \/ (exists before after,
        rest = (before ++ r :: after)%list
        /\ key best < key r
        /\ Forall (fun y => key y < key r) before
        /\ Forall (fun y => key y <= key r) after).
Proof.
  revert best.
  induction rest as [|item rest IH]; intros best; simpl.
  - left. split; [reflexivity|constructor].
  - destruct (Z.ltb_spec (key best) (key item)) as [Hlt|Hge].
    + right. destruct (IH item) as [[Hr Hall]|(b & a & Hrest & Hk & Hb & Ha)].
      * exists [], rest. rewrite Hr. simpl.
        split; [reflexivity|]. split; [assumption|]. split; [constructor|assumption].
      * exists (item :: b), a.
        split; [simpl; now f_equal|]. split; [lia|].
        split; [constructor; [lia|assumption]|assumption].
    + destruct (IH best) as [[Hr Hall]|(b & a & Hrest & Hk & Hb & Ha)].
      * left. split; [assumption|]. constructor; [lia|assumption].
      * right. exists (item :: b), a.
        split; [simpl; now f_equal|]. split; [assumption|].
        split; [constructor; [lia|assumption]|assumption].
Qed.

(** On a non-empty list [max] splits it around its result: strictly
    smaller keys before, no greater key after. *)
Lemma py_max_first {A : Type} (key : A -> Z) (x : A) (xs : list A) :
  exists r before after,
    py_max key (x :: xs) = Ok r
    /\ x :: xs = (before ++ r :: after)%list
    /\ Forall (fun y => key y < key r) before
    /\ Forall (fun y => key y <= key r) after.
Proof.
  exists (max_loop key x xs). simpl.
  destruct (max_loop_first key xs x) as [[Hr Hall]|(b & a & Hrest & Hk & Hb & Ha)].
  - exists [], xs. rewrite Hr. simpl.
    split; [reflexivity|]. split; [reflexivity|]. split; [constructor|assumption].
  - exists (x :: b), a.
    split; [reflexivity|]. split; [simpl; now f_equal|].
    split; [constructor; [lia|assumption]|assumption].
Qed.

(** ** Position of the first occurrence *)

Lemma first_index_lt (c : string) (cs : list string) :
  In c cs -> (first_index c cs < List.length cs)%nat.
Proof.
  induction cs as [|x cs IH]; simpl; [tauto|].
  intros Hin. destruct (String.eqb_spec x c); [lia|].
  destruct Hin as [?|Hin]; [congruence|]. specialize (IH Hin). lia.
Qed.

Lemma first_index_app_in (c : string) (cs tl : list string) :
  In c cs -> first_index c (cs ++ tl) = first_index c cs.
Proof.
  induction cs as [|x cs IH]; simpl; [tauto|].
  intros Hin. destruct (String.eqb_spec x c); [reflexivity|].
  destruct Hin as [?|Hin]; [congruence|]. now rewrite IH.
Qed.

Lemma first_index_snoc_new (c : string) (cs : list string) :
  ~ In c cs -> first_index c (cs ++ [c]) = List.length cs.
Proof.
  induction cs as [|x cs IH]; simpl.
  - now rewrite String.eqb_refl.
  - intros Hnin. destruct (String.eqb_spec x c); [tauto|].
    rewrite IH; tauto.
Qed.

(** The keys of a [Counter] are in the order of first occurrence. *)
Lemma Counter_keys_order (cs : list string) :
  forall (a b : string) (l1 l2 : list string),
    keys (Counter cs) = (l1 ++ a :: l2)%list -> In b l2 ->
    (first_index a cs < first_index b cs)%nat.
Proof.
  induction cs as [|c cs IH] using rev_ind; intros a b l1 l2 Hk Hb.
  - destruct l1; discriminate Hk.
  - rewrite Counter_keys_snoc in Hk.
    assert (Hmem : forall l1' l2' b', keys (Counter cs) = (l1' ++ a :: l2')%list ->
                     In b' l2' -> In a cs /\ In b' cs).
    { intros l1' l2' b' E Hb'. split; apply Counter_keys_In; rewrite E;
        apply in_or_app; right; simpl; auto. }
    destruct (in_dec string_dec c (keys (Counter cs))) as [Hin|Hnin].
    + destruct (Hmem _ _ _ Hk Hb) as [Ha' Hb'].
      rewrite !first_index_app_in by assumption. eapply IH; eauto.
    + destruct l2 as [|y l2] using rev_ind; [destruct Hb|]. clear IHl2.
      change (l1 ++ a :: l2 ++ [y])%list with (l1 ++ (a :: l2) ++ [y])%list in Hk.
      rewrite app_assoc in Hk. apply app_inj_tail in Hk. destruct Hk as [Hk ->].
      assert (Ha' : In a cs).
      { apply Counter_keys_In. rewrite Hk. apply in_or_app. right. now left. }
      rewrite (first_index_app_in a) by assumption.
      apply in_app_or in Hb. destruct Hb as [Hb|[<-|[]]].
      * destruct (Hmem _ _ _ Hk Hb) as [_ Hb'].
        rewrite first_index_app_in by assumption. eapply IH; eauto.
      * rewrite first_index_snoc_new by (now rewrite <- Counter_keys_In).
        now apply first_index_lt.
Qed.

(** ** Mode *)

Lemma get_mean_color_run (self : analyzer) (freqs : dict Z) :
  color_frequencies self = Some freqs ->
  get_mean_color self
  = (match freqs with
     | [] => Ok None
     | x :: xs => Ok (Some (fst (max_loop (fun x => snd x) x xs)))
     end, self).
Proof.
  intros Hf. unfold get_mean_color, getattr. cbn. rewrite Hf.
  destruct freqs; reflexivity.
Qed.

(** On a non-empty sequence the mode is the key of an item that splits the
    table: strictly smaller counts before it, no greater count after. *)
Lemma get_mean_color_split (self : analyzer) (cs : list string) :
  derived self cs -> cs <> [] ->
  exists r before after,
    get_mean_color self = (Ok (Some (fst r)), self)
    /\ items (Counter cs) = (before ++ r :: after)%list
    /\ Forall (fun y => snd y < snd r) before
    /\ Forall (fun y => snd y <= snd r) after.
Proof.
  intros [_ Hf] Hne.
  rewrite (get_mean_color_run _ _ Hf).
  pose proof (Counter_truthy cs) as Ht.
  destruct (Counter cs) as [|x xs] eqn:E.
  - destruct cs; [congruence|discriminate Ht].
  - destruct (py_max_first (fun y : string * Z => snd y) x xs)
      as (r & b & a & Hr & Hsplit & Hb & Ha).
    simpl in Hr. inversion Hr; subst r.
    exists (max_loop (fun y => snd y) x xs), b, a. auto.
Qed.

Lemma occurrences_nonneg (cs : list string) (c : string) :
  0 <= occurrences cs c.
Proof. unfold occurrences. lia. Qed.

Lemma occurrences_pos (cs : list string) (c : string) :
  In c cs <-> 0 < occurrences cs c.
Proof.
  unfold occurrences. rewrite (count_occ_In string_dec). lia.
Qed.

Lemma Counter_item_of (cs : list string) (c : string) :
  In c cs -> In (c, occurrences cs c) (items (Counter cs)).
Proof.
  intros Hin. apply Counter_keys_In in Hin. unfold keys in Hin.
  apply in_map_iff in Hin. destruct Hin as ([k v] & Hk & Hin).
  simpl in Hk. subst k.
  destruct (Counter_items _ _ _ Hin) as [_ ->]. exact Hin.
Qed.

Lemma mode_count_max (cs : list string) (r : string * Z)
      (before after : list (string * Z)) :
  items (Counter cs) = (before ++ r :: after)%list ->
  Forall (fun y => snd y < snd r) before ->
  Forall (fun y => snd y <= snd r) after ->
  In (fst r) cs
  /\ forall c', occurrences cs c' <= occurrences cs (fst r).
Proof.
  intros Hsplit Hb Ha.
  assert (Hr : In r (items (Counter cs)))
    by (rewrite Hsplit; apply in_or_app; right; now left).
  destruct r as [c v]. destruct (Counter_items _ _ _ Hr) as [Hc Hv].
  simpl in *. split; [assumption|]. intros c'.
  destruct (in_dec string_dec c' cs) as [Hin|Hnin].
  - apply Counter_item_of in Hin. rewrite Hsplit in Hin.
    apply in_app_or in Hin. destruct Hin as [Hin|[Heq|Hin]].
    + rewrite Forall_forall in Hb. specialize (Hb _ Hin). simpl in Hb. lia.
    + inversion Heq; subst. lia.
    + rewrite Forall_forall in Ha. specialize (Ha _ Hin). simpl in Ha. lia.
  - pose proof (proj2 (occurrences_pos cs c')) as Hp.
    pose proof (occurrences_nonneg cs c').
    pose proof (proj1 (occurrences_pos cs c) Hc).
    destruct (Z.eq_dec (occurrences cs c') 0); [lia|].
    exfalso. apply Hnin, Hp. lia.
Qed.

(** C1. On a non-empty label sequence with its derived frequency table
    [get_mean_color] returns a label of the sequence whose count in the
    table is at least the count of every label; on an empty table it
    returns [None]. *)
Theorem get_mean_color_highest_count (self : analyzer) (cs : list string) :
  derived self cs ->
  (cs <> [] ->
   exists c,
     get_mean_color self = (Ok (Some c), self)
     /\ In c cs
     /\ forall c', dict_get c' 0 (Counter cs) <= dict_get c 0 (Counter cs))
  /\ (Counter cs = [] -> get_mean_color self = (Ok None, self)).
Proof.
  intros Hd. split.
  - intros Hne.
    destruct (get_mean_color_split self cs Hd Hne)
      as (r & b & a & Hrun & Hsplit & Hb & Ha).
    destruct (mode_count_max cs r b a Hsplit Hb Ha) as [Hin Hmax].
    exists (fst r). split; [assumption|]. split; [assumption|].
    intros c'. rewrite !Counter_get. apply Hmax.
  - intros Hempty. destruct Hd as [_ Hf]. rewrite Hempty in Hf.
    now rewrite (get_mean_color_run _ _ Hf).
Qed.

Lemma get_mean_color_highest_count_witness :
  (exists c,
     get_mean_color (mk_analyzer None (Some ["B"; "A"; "A"]) (Some (Counter ["B"; "A"; "A"])))
     = (Ok (Some c), mk_analyzer None (Some ["B"; "A"; "A"]) (Some (Counter ["B"; "A"; "A"])))
     /\ In c ["B"; "A"; "A"]
     /\ forall c', dict_get c' 0 (Counter ["B"; "A"; "A"])
                   <= dict_get c 0 (Counter ["B"; "A"; "A"]))
  /\ get_mean_color (mk_analyzer None (Some []) (Some (Counter [])))
     = (Ok None, mk_analyzer None (Some []) (Some (Counter []))).
Proof.
  split.
  - apply (get_mean_color_highest_count
             (mk_analyzer None (Some ["B"; "A"; "A"]) (Some (Counter ["B"; "A"; "A"])))
             ["B"; "A"; "A"]).
    + split; reflexivity.
    + discriminate.
  - apply (get_mean_color_highest_count
             (mk_analyzer None (Some []) (Some (Counter []))) []).
    + split; reflexivity.
    + reflexivity.
Defined.

(** C10. Among the labels tied for the highest count [get_mean_color]
    returns the one whose first occurrence in the label sequence comes
    first: every other label with the same count first occurs later. *)
Theorem get_mean_color_tie_first_occurrence (self : analyzer) (cs : list string) :
  derived self cs -> cs <> [] ->
  exists c,
    get_mean_color self = (Ok (Some c), self)
    /\ (forall c', occurrences cs c' <= occurrences cs c)
    /\ (forall c', c' <> c -> occurrences cs c' = occurrences cs c ->
                   (first_index c cs < first_index c' cs)%nat).
Proof.
  intros Hd Hne.
  destruct (get_mean_color_split self cs Hd Hne)
    as (r & b & a & Hrun & Hsplit & Hb & Ha).
  destruct (mode_count_max cs r b a Hsplit Hb Ha) as [Hin Hmax].
  exists (fst r). split; [assumption|]. split; [assumption|].
  intros c' Hneq Htie.
  assert (Hin' : In c' cs).
  { apply occurrences_pos. rewrite Htie. now apply occurrences_pos. }
  assert (Hr : In r (items (Counter cs)))
    by (rewrite Hsplit; apply in_or_app; right; now left).
  destruct r as [c v]. destruct (Counter_items _ _ _ Hr) as [_ Hv].
  simpl in *.
  apply Counter_item_of in Hin'. rewrite Hsplit in Hin'.
  apply in_app_or in Hin'. destruct Hin' as [Hc'|[Heq|Hc']].
  - rewrite Forall_forall in Hb. specialize (Hb _ Hc'). simpl in Hb. lia.
  - inversion Heq. congruence.
  - apply (Counter_keys_order cs c c' (map fst b) (map fst a)).
    + unfold keys. unfold items in Hsplit. rewrite Hsplit, map_app. reflexivity.
    + apply in_map_iff. now exists (c', occurrences cs c').
Qed.

Lemma get_mean_color_tie_first_occurrence_witness :
  exists c,
    get_mean_color (mk_analyzer None (Some ["B"; "A"; "A"; "B"])
                                (Some (Counter ["B"; "A"; "A"; "B"])))
    = (Ok (Some c), mk_analyzer None (Some ["B"; "A"; "A"; "B"])
                                (Some (Counter ["B"; "A"; "A"; "B"])))
    /\ (forall c', occurrences ["B"; "A"; "A"; "B"] c'
                   <= occurrences ["B"; "A"; "A"; "B"] c)
    /\ (forall c', c' <> c ->
                   occurrences ["B"; "A"; "A"; "B"] c'
                   = occurrences ["B"; "A"; "A"; "B"] c ->
                   (first_index c ["B"; "A"; "A"; "B"]
                    < first_index c' ["B"; "A"; "A"; "B"])%nat).
Proof.
  apply (get_mean_color_tie_first_occurrence
           (mk_analyzer None (Some ["B"; "A"; "A"; "B"])
                        (Some (Counter ["B"; "A"; "A"; "B"])))
           ["B"; "A"; "A"; "B"]).
  - split; reflexivity.
  - discriminate.
Defined.

(** ** Sorting *)

Lemma string_le_trans (a b c : string) :
  string_le a b -> string_le b c -> string_le a c.
Proof.
  unfold string_le, String.leb.
  change String.compare with String_as_OT.compare.
  destruct (String_as_OT.compare_spec a b) as [->|Hab|Hab];
    [tauto| |discriminate].
  destruct (String_as_OT.compare_spec b c) as [<-|Hbc|Hbc];
    [| |discriminate]; intros _ _.
  - unfold String_as_OT.lt in Hab. now rewrite Hab.
  - assert (Hac : String_as_OT.lt a c) by (etransitivity; eauto).
    unfold String_as_OT.lt in Hac. now rewrite Hac.
Qed.

Lemma ltb_true_le (x y : string) : String.ltb x y = true -> string_le x y.
Proof.
  unfold string_le, String.ltb, String.leb.
  destruct (String.compare x y); congruence.
Qed.

Lemma ltb_false_le (x y : string) : String.ltb x y = false -> string_le y x.
Proof.
  unfold string_le, String.ltb, String.leb.
  rewrite (String.compare_antisym y x).
  destruct (String.compare x y); simpl; congruence.
Qed.

Lemma insort_perm (x : string) (l : list string) :
  Permutation (insort x l) (x :: l).
Proof.
  induction l as [|y l IH]; simpl; [reflexivity|].
  destruct (String.ltb x y); [reflexivity|].
  rewrite IH. apply perm_swap.
Qed.

Lemma insort_HdRel (a x : string) (l : list string) :
  string_le a x -> HdRel string_le a l -> HdRel string_le a (insort x l).
Proof.
  intros Hax Hl. destruct l as [|y l]; simpl; [now constructor|].
  destruct (String.ltb x y); constructor; [assumption|].
  now inversion Hl.
Qed.

Lemma insort_Sorted (x : string) (l : list string) :
  Sorted string_le l -> Sorted string_le (insort x l).
Proof.
  induction 1 as [|y l Hs IH Hhd]; simpl.
  - repeat constructor.
  - destruct (String.ltb x y) eqn:E.
    + constructor; [now constructor|]. constructor. now apply ltb_true_le.
    + constructor; [assumption|].
      apply insort_HdRel; [now apply ltb_false_le|assumption].
Qed.

Lemma sorted_snoc (l : list string) (x : string) :
  sorted (l ++ [x]) = insort x (sorted l).
Proof. unfold sorted. now rewrite fold_left_app. Qed.

Lemma sorted_perm (l : list string) : Permutation (sorted l) l.
Proof.
  induction l as [|x l IH] using rev_ind; [reflexivity|].
  rewrite sorted_snoc, insort_perm, IH. apply Permutation_cons_append.
Qed.

Lemma sorted_StronglySorted (l : list string) :
  StronglySorted string_le (sorted l).
Proof.
  apply Sorted_StronglySorted; [exact string_le_trans|].
  induction l as [|x l IH] using rev_ind; [constructor|].
  rewrite sorted_snoc. now apply insort_Sorted.
Qed.

(** An ascending arrangement of a sequence of strings is unique, so
    [sorted] returns what any correct sort returns. *)
Lemma ascending_unique (l1 l2 : list string) :
  StronglySorted string_le l1 -> StronglySorted string_le l2 ->
  Permutation l1 l2 -> l1 = l2.
Proof.
  intros H1. revert l2.
  induction H1 as [|a l1 Hs1 IH Ha]; intros l2 H2 Hp.
  - apply Permutation_nil in Hp. now subst.
  - destruct H2 as [|b l2 Hs2 Hb].
    + apply Permutation_sym, Permutation_nil in Hp. discriminate Hp.
    + assert (Hab : a = b).
      { assert (Hin1 : In a (b :: l2))
          by (apply (Permutation_in _ Hp); now left).
        assert (Hin2 : In b (a :: l1))
          by (apply (Permutation_in _ (Permutation_sym Hp)); now left).
        rewrite Forall_forall in Ha, Hb.
        destruct Hin1 as [->|Hin1]; [reflexivity|].
        destruct Hin2 as [->|Hin2]; [reflexivity|].
        apply String.leb_antisym; [apply Ha|apply Hb]; assumption. }
      subst b. f_equal. apply IH; [assumption|].
      now apply Permutation_cons_inv in Hp.
Qed.

Lemma sorted_len (l : list string) : len (sorted l) = len l.
Proof. unfold len. now rewrite (Permutation_length (sorted_perm l)). Qed.

Lemma py_index_in_range {A : Type} (l : list A) (i : Z) :
  0 <= i < len l ->
  exists x, py_index l i = Ok x /\ nth_error l (Z.to_nat i) = Some x.
Proof.
  intros Hi. unfold py_index.
  assert (E0 : (i <? 0) = false) by (apply Z.ltb_ge; lia).
  rewrite E0. cbv zeta. rewrite E0.
  destruct (nth_error l (Z.to_nat i)) as [a|] eqn:E;
    [exists a; split; reflexivity|].
  apply nth_error_None in E. unfold len in Hi. lia.
Qed.

(** ** Median *)

Lemma mod2_eqb_odd (n : Z) : (n mod 2 =? 1) = Z.odd n.
Proof. rewrite Zmod_odd. now destruct (Z.odd n). Qed.

Lemma get_median_color_run (self : analyzer) (cs : list string) :
  colors self = Some cs -> cs <> [] ->
  get_median_color self
  = (match py_index (sorted cs) (median_index (len cs)) with
     | Ok c => Ok (Some c)
     | Raise e => Raise e
     end, self).
Proof.
  intros Hc Hne. unfold get_median_color, getattr. cbn. rewrite Hc.
  destruct cs as [|c0 cs']; [congruence|].
  cbn [truthy negb]. cbv zeta. rewrite sorted_len, mod2_eqb_odd.
  unfold median_index, lift.
  destruct (Z.odd (len (c0 :: cs')));
    destruct (py_index (sorted (c0 :: cs')) _); reflexivity.
Qed.

(** C2. On a non-empty label sequence of length [n], [get_median_color]
    returns the element at index [n // 2] (odd [n]) or [(n - 1) // 2]
    (even [n]) of the sequence sorted in ascending lexicographic order,
    the one ascending rearrangement of the sequence; the result is a
    member of the sequence.  On the empty sequence it returns [None]. *)
Theorem get_median_color_sorted_middle (self : analyzer) (cs : list string) :
  colors self = Some cs ->
  (cs <> [] ->
   exists s c,
     Permutation s cs
     /\ StronglySorted string_le s
     /\ (forall s', Permutation s' cs -> StronglySorted string_le s' -> s' = s)
     /\ nth_error s (Z.to_nat (median_index (len cs))) = Some c
     /\ get_median_color self = (Ok (Some c), self)
     /\ In c cs)
  /\ (cs = [] -> get_median_color self = (Ok None, self)).
Proof.
  intros Hc. split.
  - intros Hne. exists (sorted cs).
    assert (Hn : 0 < len cs)
      by (unfold len; destruct cs; [congruence|simpl; lia]).
    assert (Hr : 0 <= median_index (len cs) < len (sorted cs)).
    { rewrite sorted_len. unfold median_index.
      destruct (Z.odd (len cs)); split;
        try apply Z.div_pos; try apply Z.div_lt_upper_bound; lia. }
    destruct (py_index_in_range _ _ Hr) as (c & Hidx & Hnth).
    exists c.
    split; [apply sorted_perm|]. split; [apply sorted_StronglySorted|].
    split.
    { intros s' Hp Hs. apply ascending_unique;
        [assumption|apply sorted_StronglySorted|].
      now rewrite Hp, sorted_perm. }
    split; [assumption|]. split.
    + rewrite (get_median_color_run _ _ Hc Hne). now rewrite Hidx.
    + apply (Permutation_in _ (sorted_perm cs)).
      eapply nth_error_In; eauto.
  - intros ->. unfold get_median_color, getattr. cbn. now rewrite Hc.
Qed.

Lemma get_median_color_sorted_middle_witness :
  (exists s c,
     Permutation s ["RED"; "BLUE"; "GREEN"; "BLUE"]
     /\ StronglySorted string_le s
     /\ (forall s', Permutation s' ["RED"; "BLUE"; "GREEN"; "BLUE"] ->
                    StronglySorted string_le s' -> s' = s)
     /\ nth_error s (Z.to_nat (median_index (len ["RED"; "BLUE"; "GREEN"; "BLUE"])))
        = Some c
     /\ get_median_color (mk_analyzer None (Some ["RED"; "BLUE"; "GREEN"; "BLUE"]) None)
        = (Ok (Some c), mk_analyzer None (Some ["RED"; "BLUE"; "GREEN"; "BLUE"]) None)
     /\ In c ["RED"; "BLUE"; "GREEN"; "BLUE"])
  /\ get_median_color (mk_analyzer None (Some []) None)
     = (Ok None, mk_analyzer None (Some []) None).
Proof.
  split.
  - apply (get_median_color_sorted_middle
             (mk_analyzer None (Some ["RED"; "BLUE"; "GREEN"; "BLUE"]) None)
             ["RED"; "BLUE"; "GREEN"; "BLUE"]).
    + reflexivity.
    + discriminate.
  - apply (get_median_color_sorted_middle (mk_analyzer None (Some []) None) []);
      reflexivity.
Defined.

(** ** Variance of the counts *)




Lemma Counter_keys_distinct (cs : list string) :
  Permutation (keys (Counter cs)) (distinct cs).
Proof.
  apply NoDup_Permutation.
  - apply Counter_keys_NoDup.
  - apply NoDup_nodup.
  - intros c. unfold distinct. rewrite Counter_keys_In, nodup_In. reflexivity.
Qed.

Lemma Counter_values (cs : list string) :
  values (Counter cs) = map (occurrences cs) (keys (Counter cs)).
Proof.
  rewrite (dict_get_values (Counter cs) 0 (Counter_keys_NoDup cs)).
  apply map_ext. intros c. apply Counter_get.
Qed.




(** ** Probability of red *)

Lemma occurrences_le_len (cs : list string) (c : string) :
  occurrences cs c <= len cs.
Proof.
  unfold occurrences, len. pose proof (count_occ_bound string_dec c cs). lia.
Qed.

Lemma ratio_unit_interval (a b : Z) :
  0 <= a <= b -> 0 < b -> (0 <= inject_Z a / inject_Z b <= 1)%Q.
Proof.
  intros Ha Hb.
  assert (Hb' : (0 < inject_Z b)%Q)
    by (change 0%Q with (inject_Z 0); rewrite <- Zlt_Qlt; lia).
  split.
  - apply Qle_shift_div_l; [assumption|].
    rewrite Qmult_0_l. change 0%Q with (inject_Z 0).
    rewrite <- Zle_Qle. lia.
  - apply Qle_shift_div_r; [assumption|].
    rewrite Qmult_1_l. rewrite <- Zle_Qle. lia.
Qed.

(** ** Rounding to binary64 *)

Module Rounding.
Import Binary64.

Lemma pow2_pos (e : Z) : (0 < pow2 e)%Q.
Proof. apply Qpower_0_lt. reflexivity. Qed.

Lemma pow2_plus (a b : Z) : (pow2 (a + b) == pow2 a * pow2 b)%Q.
Proof. apply Qpower_plus. discriminate. Qed.

Lemma pow2_le (a b : Z) : a <= b -> (pow2 a <= pow2 b)%Q.
Proof. intros H. apply Qpower_le_compat_l; [assumption|discriminate]. Qed.

Lemma pow2_lt_inv (a b : Z) : (pow2 a < pow2 b)%Q -> a < b.
Proof. intros H. apply (Qpower_lt_compat_l_inv 2); [assumption|reflexivity]. Qed.

Lemma pow2_Z (e : Z) : 0 <= e -> (pow2 e == inject_Z (2 ^ e))%Q.
Proof. intros H. unfold pow2. now rewrite Zpower_Qpower. Qed.

Lemma pow2_minus (a b : Z) : (pow2 (a - b) == pow2 a / pow2 b)%Q.
Proof. apply Qpower_minus. discriminate. Qed.

Lemma Qlt_ratio (p : Z) (q : positive) (a b : Z) :
  0 < b -> p * b < a * Z.pos q -> (p # q < inject_Z a / inject_Z b)%Q.
Proof.
  intros Hb H.
  apply Qlt_shift_div_l.
  - change 0%Q with (inject_Z 0). rewrite <- Zlt_Qlt. exact Hb.
  - unfold Qlt, Qmult, inject_Z. simpl. lia.
Qed.

Lemma Qle_ratio (p : Z) (q : positive) (a b : Z) :
  0 < b -> a * Z.pos q <= p * b -> (inject_Z a / inject_Z b <= p # q)%Q.
Proof.
  intros Hb H.
  apply Qle_shift_div_r.
  - change 0%Q with (inject_Z 0). rewrite <- Zlt_Qlt. exact Hb.
  - unfold Qle, Qmult, inject_Z. simpl. lia.
Qed.

Lemma flog2_spec (x : Q) :
  (0 < x)%Q -> (pow2 (flog2 x) <= x)%Q /\ (x < pow2 (flog2 x + 1))%Q.
Proof.
  intros Hx. destruct x as [p q].
  assert (Hp : 0 < p) by (unfold Qlt in Hx; simpl in Hx; lia).
  unfold flog2. cbn [Qnum Qden].
  set (lp := Z.log2 p). set (lq := Z.log2 (Z.pos q)).
  pose proof (Z.log2_spec p Hp) as [Hp1 Hp2]. fold lp in Hp1, Hp2.
  pose proof (Z.log2_spec (Z.pos q) (Pos2Z.is_pos q)) as [Hq1 Hq2].
  fold lq in Hq1, Hq2.
  assert (Hlp : 0 <= lp) by apply Z.log2_nonneg.
  assert (Hlq : 0 <= lq) by apply Z.log2_nonneg.
  assert (P1 : 0 < 2 ^ lp) by (apply Z.pow_pos_nonneg; lia).
  assert (P2 : 0 < 2 ^ lq) by (apply Z.pow_pos_nonneg; lia).
  destruct (Qle_bool (pow2 (lp - lq)) (p # q)) eqn:E.
  - split; [now apply Qle_bool_iff|].
    replace (lp - lq + 1) with (Z.succ lp - lq) by lia.
    rewrite pow2_minus, !pow2_Z by lia.
    apply Qlt_ratio; [assumption|]. nia.
  - split.
    + replace (lp - lq - 1) with (lp - Z.succ lq) by lia.
      rewrite pow2_minus, !pow2_Z by lia.
      apply Qle_ratio; [apply Z.pow_pos_nonneg; lia|]. nia.
    + replace (lp - lq - 1 + 1) with (lp - lq) by lia.
      apply Qnot_le_lt. intros H. apply Qle_bool_iff in H. congruence.
Qed.

Lemma flog2_unique (x : Q) (l : Z) :
  (pow2 l <= x)%Q -> (x < pow2 (l + 1))%Q -> flog2 x = l.
Proof.
  intros H1 H2.
  assert (Hx : (0 < x)%Q) by (eapply Qlt_le_trans; [apply (pow2_pos l)|exact H1]).
  destruct (flog2_spec x Hx) as [S1 S2].
  assert (A : flog2 x < l + 1).
  { apply pow2_lt_inv. eapply Qle_lt_trans; [exact S1|exact H2]. }
  assert (B : l < flog2 x + 1).
  { apply pow2_lt_inv. eapply Qle_lt_trans; [exact H1|exact S2]. }
  lia.
Qed.

Lemma flog2_mono (x y : Q) : (0 < x)%Q -> (x <= y)%Q -> flog2 x <= flog2 y.
Proof.
  intros Hx Hxy.
  assert (Hy : (0 < y)%Q) by (eapply Qlt_le_trans; eassumption).
  destruct (flog2_spec x Hx) as [S1 _]. destruct (flog2_spec y Hy) as [_ T2].
  assert (A : flog2 x < flog2 y + 1).
  { apply pow2_lt_inv. eapply Qle_lt_trans; [exact S1|].
    eapply Qle_lt_trans; [exact Hxy|exact T2]. }
  lia.
Qed.

Lemma round_half_even_comp (x y : Q) :
  (x == y)%Q -> round_half_even x = round_half_even y.
Proof.
  intros E. unfold round_half_even.
  rewrite (Qfloor_comp x y E).
  assert (E' : (x - inject_Z (Qfloor y) == y - inject_Z (Qfloor y))%Q)
    by (now rewrite E).
  now rewrite E'.
Qed.

Lemma round_half_even_Z (m : Z) : round_half_even (inject_Z m) = m.
Proof.
  unfold round_half_even. rewrite Qfloor_Z.
  destruct (Qcompare_spec (inject_Z m - inject_Z m) (1 # 2)) as [H|H|H];
    [exfalso; lra|reflexivity|exfalso; lra].
Qed.

Lemma round_half_even_floor (y : Q) :
  Qfloor y <= round_half_even y <= Qfloor y + 1.
Proof.
  unfold round_half_even.
  destruct (Qcompare _ _); [destruct (Z.even _)| |]; lia.
Qed.

Lemma round_half_even_mono (y z : Q) :
  (y <= z)%Q -> round_half_even y <= round_half_even z.
Proof.
  intros H. pose proof (Qfloor_resp_le y z H) as Hf.
  destruct (Z.eq_dec (Qfloor y) (Qfloor z)) as [E|NE].
  - unfold round_half_even. rewrite E.
    destruct (Qcompare_spec (y - inject_Z (Qfloor z)) (1 # 2)) as [A|A|A];
      destruct (Qcompare_spec (z - inject_Z (Qfloor z)) (1 # 2)) as [B|B|B];
      destruct (Z.even (Qfloor z)); try lia; exfalso; lra.
  - pose proof (round_half_even_floor y). pose proof (round_half_even_floor z).
    lia.
Qed.

Lemma round_magnitude_eq (x : Q) :
  (round_magnitude x
   == inject_Z (round_half_even (x / pow2 (exponent x))) * pow2 (exponent x))%Q.
Proof. unfold round_magnitude. apply Qred_correct. Qed.

Lemma scaled_le (x : Q) (e m : Z) :
  (x <= inject_Z m * pow2 e)%Q -> (x / pow2 e <= inject_Z m)%Q.
Proof. intros H. apply Qle_shift_div_r; [apply pow2_pos|exact H]. Qed.

Lemma scaled_ge (x : Q) (e m : Z) :
  (inject_Z m * pow2 e <= x)%Q -> (inject_Z m <= x / pow2 e)%Q.
Proof. intros H. apply Qle_shift_div_l; [apply pow2_pos|exact H]. Qed.

Lemma round_magnitude_nonneg (x : Q) : (0 <= x)%Q -> (0 <= round_magnitude x)%Q.
Proof.
  intros Hx. rewrite round_magnitude_eq.
  apply Qmult_le_0_compat; [|apply Qlt_le_weak, pow2_pos].
  change 0%Q with (inject_Z 0). rewrite <- Zle_Qle.
  rewrite <- (round_half_even_Z 0). apply round_half_even_mono.
  apply scaled_ge. simpl. rewrite Qmult_0_l. exact Hx.
Qed.

Lemma round_magnitude_zero (x : Q) : (x == 0)%Q -> (round_magnitude x == 0)%Q.
Proof.
  intros E. rewrite round_magnitude_eq.
  rewrite (round_half_even_comp _ (inject_Z 0)).
  - rewrite round_half_even_Z. simpl. apply Qmult_0_l.
  - unfold Qdiv. rewrite (Qmult_comp x 0%Q E _ _ (Qeq_refl _)). apply Qmult_0_l.
Qed.

Lemma round_magnitude_mono (x y : Q) :
  (0 <= x)%Q -> (x <= y)%Q -> (round_magnitude x <= round_magnitude y)%Q.
Proof.
  intros Hx Hxy.
  destruct (Qeq_dec x 0) as [E|NE].
  - rewrite (round_magnitude_zero x E). apply round_magnitude_nonneg. lra.
  - assert (Px : (0 < x)%Q) by (apply Qnot_le_lt; intros H; apply NE; lra).
    assert (Py : (0 < y)%Q) by lra.
    pose proof (flog2_mono x y Px Hxy) as Hl.
    destruct (flog2_spec x Px) as [_ X2]. destruct (flog2_spec y Py) as [Y1 _].
    rewrite !round_magnitude_eq.
    destruct (Z.eq_dec (exponent x) (exponent y)) as [Ee|Ne].
    + rewrite Ee. apply Qmult_le_compat_r; [|apply Qlt_le_weak, pow2_pos].
      rewrite <- Zle_Qle. apply round_half_even_mono.
      apply Qmult_le_compat_r; [exact Hxy|].
      apply Qlt_le_weak, Qinv_lt_0_compat, pow2_pos.
    + assert (Hlt : exponent x < exponent y) by (unfold exponent in *; lia).
      assert (Ey : exponent y = flog2 y - 52) by (unfold exponent in *; lia).
      assert (Ex : flog2 x + 1 <= exponent x + 53) by (unfold exponent; lia).
      apply Qle_trans with (inject_Z (2 ^ 53) * pow2 (exponent x))%Q.
      * apply Qmult_le_compat_r; [|apply Qlt_le_weak, pow2_pos].
        rewrite <- Zle_Qle. rewrite <- (round_half_even_Z (2 ^ 53)).
        apply round_half_even_mono. apply scaled_le.
        rewrite <- pow2_Z, <- pow2_plus by lia.
        apply Qlt_le_weak. eapply Qlt_le_trans; [exact X2|].
        apply pow2_le. lia.
      * apply Qle_trans with (inject_Z (2 ^ 52) * pow2 (exponent y))%Q.
        -- rewrite <- !pow2_Z, <- !pow2_plus by lia. apply pow2_le. lia.
        -- apply Qmult_le_compat_r; [|apply Qlt_le_weak, pow2_pos].
           rewrite <- Zle_Qle. rewrite <- (round_half_even_Z (2 ^ 52)) at 1.
           apply round_half_even_mono. apply scaled_ge.
           rewrite <- pow2_Z, <- pow2_plus by lia.
           eapply Qle_trans; [|exact Y1]. apply pow2_le. lia.
Qed.

Lemma round64_nonneg (x : Q) : (0 <= x)%Q -> (0 <= round64 x)%Q.
Proof.
  intros Hx. unfold round64.
  apply Qle_bool_iff in Hx as Hb. rewrite Hb. now apply round_magnitude_nonneg.
Qed.

Lemma round64_nonpos (x : Q) : (x <= 0)%Q -> (round64 x <= 0)%Q.
Proof.
  intros Hx. unfold round64.
  destruct (Qle_bool 0 x) eqn:E.
  - apply Qle_bool_iff in E. rewrite (round_magnitude_zero x); lra.
  - pose proof (round_magnitude_nonneg (- x)%Q ltac:(lra)). lra.
Qed.

Lemma round64_mono (x y : Q) : (x <= y)%Q -> (round64 x <= round64 y)%Q.
Proof.
  intros Hxy.
  destruct (Qlt_le_dec x 0) as [Nx|Px].
  - destruct (Qlt_le_dec y 0) as [Ny|Py].
    + unfold round64.
      assert (Ex : Qle_bool 0 x = false).
      { destruct (Qle_bool 0 x) eqn:E; [apply Qle_bool_iff in E; lra|reflexivity]. }
      assert (Ey : Qle_bool 0 y = false).
      { destruct (Qle_bool 0 y) eqn:E; [apply Qle_bool_iff in E; lra|reflexivity]. }
      rewrite Ex, Ey.
      pose proof (round_magnitude_mono (- y) (- x) ltac:(lra) ltac:(lra)). lra.
    + apply Qle_trans with 0%Q.
      * apply round64_nonpos. lra.
      * now apply round64_nonneg.
  - unfold round64.
    apply Qle_bool_iff in Px as Ex. rewrite Ex.
    assert (Ey : Qle_bool 0 y = true) by (apply Qle_bool_iff; lra).
    rewrite Ey. now apply round_magnitude_mono.
Qed.

(** Integers [m * 2 ^ e] with [m] of at most 53 bits are binary64 values. *)
Lemma round64_exact (m e : Z) :
  0 <= m < 2 ^ 53 -> 0 <= e ->
  (round64 (inject_Z (m * 2 ^ e)) == inject_Z (m * 2 ^ e))%Q.
Proof.
  intros Hm He.
  assert (P : 0 < 2 ^ e) by (apply Z.pow_pos_nonneg; lia).
  unfold round64.
  assert (Hb : Qle_bool 0 (inject_Z (m * 2 ^ e)) = true).
  { apply Qle_bool_iff. change 0%Q with (inject_Z 0). rewrite <- Zle_Qle. nia. }
  rewrite Hb.
  destruct (Z.eq_dec m 0) as [->|Hm0].
  { rewrite Z.mul_0_l. now apply round_magnitude_zero. }
  assert (Hl : flog2 (inject_Z (m * 2 ^ e)) = Z.log2 m + e).
  { apply flog2_unique.
    - rewrite pow2_Z by (pose proof (Z.log2_nonneg m); lia).
      rewrite <- Zle_Qle. rewrite Z.pow_add_r by (try apply Z.log2_nonneg; lia).
      pose proof (Z.log2_spec m ltac:(lia)). nia.
    - rewrite pow2_Z by (pose proof (Z.log2_nonneg m); lia).
      rewrite <- Zlt_Qlt.
      replace (Z.log2 m + e + 1) with (Z.succ (Z.log2 m) + e) by lia.
      rewrite Z.pow_add_r by (pose proof (Z.log2_nonneg m); lia).
      pose proof (Z.log2_spec m ltac:(lia)). nia. }
  assert (Hl52 : Z.log2 m <= 52).
  { assert (Z.log2 m < 53) by (apply Z.log2_lt_pow2; lia). lia. }
  pose proof (Z.log2_nonneg m) as Hl0.
  rewrite round_magnitude_eq. unfold exponent. rewrite Hl.
  replace (Z.max (Z.log2 m + e - 52) (-1074)) with (e - (52 - Z.log2 m)) by lia.
  set (d := 52 - Z.log2 m). assert (Hd : 0 <= d) by (unfold d; lia).
  assert (Pd : 0 < 2 ^ d) by (apply Z.pow_pos_nonneg; lia).
  assert (Sc : (inject_Z (m * 2 ^ e) / pow2 (e - d) == inject_Z (m * 2 ^ d))%Q).
  { rewrite pow2_minus, !pow2_Z by lia. rewrite !inject_Z_mult.
    assert (N1 : ~ (inject_Z (2 ^ e) == 0)%Q).
    { intros H. unfold Qeq in H. simpl in H. lia. }
    assert (N2 : ~ (inject_Z (2 ^ d) == 0)%Q).
    { intros H. unfold Qeq in H. simpl in H. lia. }
    field. split; assumption. }
  rewrite (round_half_even_comp _ _ Sc), round_half_even_Z.
  rewrite pow2_minus, !pow2_Z by lia. rewrite !inject_Z_mult.
  assert (N2 : ~ (inject_Z (2 ^ d) == 0)%Q).
  { intros H. unfold Qeq in H. simpl in H. lia. }
  field. assumption.
Qed.


Lemma round64_zero : (round64 0 == 0)%Q.
Proof. exact (round64_exact 0 0 ltac:(lia) ltac:(lia)). Qed.

Lemma round64_one : (round64 1 == 1)%Q.
Proof. exact (round64_exact 1 0 ltac:(lia) ltac:(lia)). Qed.

Lemma round64_unit_interval (x : Q) :
  (0 <= x <= 1)%Q -> (0 <= round64 x <= 1)%Q.
Proof.
  intros [H0 H1]. split.
  - now apply round64_nonneg.
  - rewrite <- round64_one. now apply round64_mono.
Qed.


Lemma overflows_below (r : Q) (b : Z) :
  b < 2 ^ 1024 -> (Qabs r <= inject_Z b)%Q -> overflows r = false.
Proof.
  intros Hb Hr. unfold overflows.
  destruct (Qle_bool (pow2 1024) (Qabs r)) eqn:E; [|reflexivity].
  apply Qle_bool_iff in E. rewrite pow2_Z in E by lia.
  assert (H : (inject_Z (2 ^ 1024) <= inject_Z b)%Q) by (eapply Qle_trans; eassumption).
  rewrite <- Zle_Qle in H. lia.
Qed.

Lemma round_half_even_near (y : Q) :
  (Qabs (inject_Z (round_half_even y) - y) <= 1 # 2)%Q.
Proof.
  pose proof (Qfloor_le y) as Hl. pose proof (Qlt_floor y) as Hu.
  rewrite inject_Z_plus in Hu.
  apply Qabs_Qle_condition. unfold round_half_even.
  destruct (Qcompare_spec (y - inject_Z (Qfloor y)) (1 # 2)) as [A|A|A];
    [destruct (Z.even (Qfloor y))| |]; rewrite ?inject_Z_plus;
    change (inject_Z 1) with 1%Q in *; split; lra.
Qed.

Lemma round_magnitude_near (x : Q) :
  (Qabs (round_magnitude x - x) <= (1 # 2) * pow2 (exponent x))%Q.
Proof.
  pose proof (pow2_pos (exponent x)) as P.
  pose proof (round_half_even_near (x / pow2 (exponent x))) as N.
  rewrite round_magnitude_eq.
  assert (E : (inject_Z (round_half_even (x / pow2 (exponent x))) * pow2 (exponent x) - x
               == (inject_Z (round_half_even (x / pow2 (exponent x)))
                   - x / pow2 (exponent x)) * pow2 (exponent x))%Q).
  { field. intros H. rewrite H in P. now apply Qlt_irrefl in P. }
  rewrite E, Qabs_Qmult, (Qabs_pos (pow2 (exponent x))) by now apply Qlt_le_weak.
  apply Qmult_le_compat_r; [exact N|now apply Qlt_le_weak].
Qed.

(** On [0 .. 1] rounding moves a value by [2 ^ -53] at most. *)
Lemma round64_near_unit (x : Q) :
  (0 <= x <= 1)%Q -> (Qabs (round64 x - x) <= pow2 (-53))%Q.
Proof.
  intros [H0 H1]. unfold round64.
  apply Qle_bool_iff in H0 as Hb. rewrite Hb.
  destruct (Qeq_dec x 0) as [E|NE].
  - assert (Z0 : (round_magnitude x - x == 0)%Q)
      by (rewrite (round_magnitude_zero x E); lra).
    rewrite Z0. apply Qlt_le_weak, pow2_pos.
  - assert (Px : (0 < x)%Q) by (apply Qnot_le_lt; intros H; apply NE; lra).
    destruct (flog2_spec x Px) as [S1 _].
    assert (Hl : flog2 x <= 0).
    { destruct (Z_le_gt_dec (flog2 x) 0) as [L|G]; [exact L|exfalso].
      assert (T : (pow2 1 <= pow2 (flog2 x))%Q) by (apply pow2_le; lia).
      assert (T1 : (pow2 1 == 2)%Q) by reflexivity. lra. }
    eapply Qle_trans; [apply round_magnitude_near|].
    assert (Hp : (pow2 (exponent x) <= pow2 (-52))%Q)
      by (apply pow2_le; unfold exponent; lia).
    assert (T : (pow2 (-52) == 2 * pow2 (-53))%Q).
    { change (-52) with (1 + -53). now rewrite pow2_plus. }
    lra.
Qed.




End Rounding.

(** ** Probability of red, on the floats *)

Lemma unit_not_overflow (r : Q) :
  (0 <= r <= 1)%Q -> Binary64.overflows r = false.
Proof.
  intros [H0 H1]. apply (Rounding.overflows_below r 1); [reflexivity|].
  now rewrite Qabs_pos.
Qed.

Lemma get_red_probability_binary64_run (self : analyzer) (cs : list string) :
  derived self cs -> cs <> [] ->
  Binary64.get_red_probability self
  = (Ok (Binary64.PyFloat
           (Binary64.Finite
              (Binary64.round64
                 (inject_Z (occurrences cs "RED") / inject_Z (len cs))))), self)
  /\ Binary64.truediv (occurrences cs "RED") (len cs)
     = Ok (Binary64.round64
             (inject_Z (occurrences cs "RED") / inject_Z (len cs))).
Proof.
  intros [Hc Hf] Hne.
  assert (Hn : 0 < len cs) by (destruct cs; [congruence|unfold len; simpl; lia]).
  assert (Hu : (0 <= inject_Z (occurrences cs "RED") / inject_Z (len cs) <= 1)%Q).
  { apply ratio_unit_interval; [|assumption].
    split; [apply occurrences_nonneg|apply occurrences_le_len]. }
  assert (Ht : Binary64.truediv (occurrences cs "RED") (len cs)
               = Ok (Binary64.round64
                       (inject_Z (occurrences cs "RED") / inject_Z (len cs)))).
  { unfold Binary64.truediv.
    destruct (Z.eqb_spec (len cs) 0) as [E|_]; [lia|].
    now rewrite (unit_not_overflow _ (Rounding.round64_unit_interval _ Hu)). }
  split; [|exact Ht].
  unfold Binary64.get_red_probability, getattr. cbn. rewrite Hc.
  destruct cs as [|c0 cs']; [congruence|].
  cbn [truthy negb]. cbv iota. rewrite Hf, Hc. rewrite Counter_get.
  unfold lift. now rewrite Ht.
Qed.

(** C4. [get_red_probability] never raises on a sequence with its derived
    table.  On a non-empty sequence of length [n] it returns the float
    [count("RED") / n], the quotient of the two ints as Python divides
    them: the binary64 number nearest to the exact quotient, which is
    within [2 ^ -53] of it and is [0] when "RED" does not occur.  On the
    empty sequence it returns the integer [0] and divides nothing.  The
    value is always within [0, 1]. *)
Theorem get_red_probability_quotient (self : analyzer) (cs : list string) :
  derived self cs ->
  exists r v,
    Binary64.get_red_probability self = (Ok r, self)
    /\ Binary64.num_value r = Some v
    /\ (cs <> [] ->
        r = Binary64.PyFloat (Binary64.Finite v)
        /\ Binary64.truediv (occurrences cs "RED") (len cs) = Ok v
        /\ v = Binary64.round64
                 (inject_Z (occurrences cs "RED") / inject_Z (len cs))
        /\ (Qabs (v - inject_Z (occurrences cs "RED") / inject_Z (len cs))
            <= Binary64.pow2 (-53))%Q)
    /\ (cs = [] -> r = Binary64.PyInt 0)
    /\ (~ In "RED" cs -> (v == 0)%Q)
    /\ (0 <= v <= 1)%Q.
Proof.
  intros Hd. destruct cs as [|c0 cs'].
  - destruct Hd as [Hc _]. exists (Binary64.PyInt 0), (inject_Z 0).
    unfold Binary64.get_red_probability, getattr. cbn. rewrite Hc. cbn.
    repeat split; try congruence; try reflexivity; unfold Qle; simpl; lia.
  - assert (Hne : c0 :: cs' <> []) by discriminate.
    destruct (get_red_probability_binary64_run self _ Hd Hne) as [Hrun Ht].
    set (q := (inject_Z (occurrences (c0 :: cs') "RED")
               / inject_Z (len (c0 :: cs')))%Q) in *.
    assert (Hn : 0 < len (c0 :: cs')) by (unfold len; simpl; lia).
    assert (Hu : (0 <= q <= 1)%Q).
    { apply ratio_unit_interval; [|assumption].
      split; [apply occurrences_nonneg|apply occurrences_le_len]. }
    exists (Binary64.PyFloat (Binary64.Finite (Binary64.round64 q))),
           (Binary64.round64 q).
    split; [exact Hrun|]. split; [reflexivity|].
    split; [intros _; repeat split; try assumption;
            now apply Rounding.round64_near_unit|].
    split; [congruence|]. split.
    + intros Hnin.
      assert (E0 : occurrences (c0 :: cs') "RED" = 0).
      { pose proof (proj2 (occurrences_pos (c0 :: cs') "RED")).
        pose proof (occurrences_nonneg (c0 :: cs') "RED").
        destruct (Z.eq_dec (occurrences (c0 :: cs') "RED") 0); [assumption|].
        exfalso. apply Hnin, H. lia. }
      assert (Eq0 : (q == 0)%Q) by (unfold q; rewrite E0; unfold Qdiv; ring).
      apply Qle_antisym.
      * apply Rounding.round64_nonpos. rewrite Eq0. apply Qle_refl.
      * now apply Rounding.round64_nonneg.
    + now apply Rounding.round64_unit_interval.
Qed.

Lemma get_red_probability_quotient_witness :
  exists r v,
    Binary64.get_red_probability
      (mk_analyzer None (Some ["RED"; "BLUE"; "RED"])
                   (Some (Counter ["RED"; "BLUE"; "RED"])))
    = (Ok r, mk_analyzer None (Some ["RED"; "BLUE"; "RED"])
                         (Some (Counter ["RED"; "BLUE"; "RED"])))
    /\ Binary64.num_value r = Some v
    /\ (["RED"; "BLUE"; "RED"] <> [] ->
        r = Binary64.PyFloat (Binary64.Finite v)
        /\ Binary64.truediv (occurrences ["RED"; "BLUE"; "RED"] "RED")
                            (len ["RED"; "BLUE"; "RED"]) = Ok v
        /\ v = Binary64.round64
                 (inject_Z (occurrences ["RED"; "BLUE"; "RED"] "RED")
                  / inject_Z (len ["RED"; "BLUE"; "RED"]))
        /\ (Qabs (v - inject_Z (occurrences ["RED"; "BLUE"; "RED"] "RED")
                      / inject_Z (len ["RED"; "BLUE"; "RED"]))
            <= Binary64.pow2 (-53))%Q)
    /\ (["RED"; "BLUE"; "RED"] = [] -> r = Binary64.PyInt 0)
    /\ (~ In "RED" ["RED"; "BLUE"; "RED"] -> (v == 0)%Q)
    /\ (0 <= v <= 1)%Q.
Proof.
  apply (get_red_probability_quotient
           (mk_analyzer None (Some ["RED"; "BLUE"; "RED"])
                        (Some (Counter ["RED"; "BLUE"; "RED"])))
           ["RED"; "BLUE"; "RED"]).
  split; reflexivity.
Defined.

(** The float returned for two reds among three labels, which the exact
    quotient 2/3 is not. *)
Example get_red_probability_two_thirds :
  fst (Binary64.get_red_probability
         (mk_analyzer None (Some ["RED"; "BLUE"; "RED"])
                      (Some (Counter ["RED"; "BLUE"; "RED"]))))
  = Ok (Binary64.PyFloat
          (Binary64.Finite (6004799503160661 # 9007199254740992))).
Proof. vm_compute. reflexivity. Qed.

(** ** Variance of the counts, on the floats *)








Section VarianceOnFloats.

Variable libm_pow : Q -> Q -> option Q.

(** What the statements ask of the library: the square of a base of at
    most [2 ^ 53] is returned, and lies between [0] and [2 ^ 107]. *)
Hypothesis libm_pow_in_range :
  forall x : Q, (0 < x <= inject_Z (2 ^ 53))%Q ->
    exists r, libm_pow x 2 = Some r /\ (0 <= r <= inject_Z (2 ^ 107))%Q.







End VarianceOnFloats.




(** The variance of the counts 2, 1, 1 with correctly rounded squares:
    the float next to 2/9. *)
Example get_color_variance_two_ninths :
  fst (Binary64.get_color_variance correctly_rounded_square
         (mk_analyzer None (Some ["A"; "A"; "B"; "C"])
                      (Some (Counter ["A"; "A"; "B"; "C"]))))
  = Ok (Binary64.PyFloat
          (Binary64.Finite (2001599834386887 # 9007199254740992))).
Proof. vm_compute. reflexivity. Qed.

(** The order of the table decides the last bit: the counts 1, 2, 4 and
    the counts 1, 4, 2. *)
Example get_color_variance_table_order :
  fst (Binary64.get_color_variance correctly_rounded_square
         (mk_analyzer None (Some ["A"; "B"; "B"; "C"; "C"; "C"; "C"])
                      (Some (Counter ["A"; "B"; "B"; "C"; "C"; "C"; "C"]))))
  = Ok (Binary64.PyFloat
          (Binary64.Finite (875699927544263 # 562949953421312)))
  /\ fst (Binary64.get_color_variance correctly_rounded_square
            (mk_analyzer None (Some ["A"; "C"; "C"; "C"; "C"; "B"; "B"])
                         (Some (Counter ["A"; "C"; "C"; "C"; "C"; "B"; "B"]))))
     = Ok (Binary64.PyFloat
             (Binary64.Finite (7005599420354105 # 4503599627370496))).
Proof. split; vm_compute; reflexivity. Qed.

(** The fallback sequence: counts 5, 4, 4, 1, variance exactly 9/4. *)
Example get_color_variance_fallback :
  fst (Binary64.get_color_variance correctly_rounded_square
         (mk_analyzer None (Some fallback_sequence)
                      (Some (Counter fallback_sequence))))
  = Ok (Binary64.PyFloat (Binary64.Finite (9 # 4))).
Proof. vm_compute. reflexivity. Qed.

(** ** Acquisition *)

Section AcquisitionFacts.

Variable requests_get_text : string -> result string.
Variable str_upper : string -> string.
Variable re_findall : string -> string -> list string.

(** What one call of [fetch_and_parse_html] does, case by case. *)
Lemma fetch_and_parse_html_run (self : analyzer) :
  fetch_and_parse_html requests_get_text str_upper re_findall self
  = match url self with
    | None =>
        (Ok false, mk_analyzer None (Some fallback_sequence)
                               (Some (Counter fallback_sequence)))
    | Some u =>
        match requests_get_text u with
        | Raise _ =>
            (Ok false, mk_analyzer (Some u) (Some fallback_sequence)
                                   (Some (Counter fallback_sequence)))
        | Ok html_content =>
            let found := re_findall color_pattern (str_upper html_content) in
            let cs := match found with [] => fallback_sequence | _ => found end in
            (Ok true, mk_analyzer (Some u) (Some cs) (Some (Counter cs)))
        end
    end.
Proof.
  unfold fetch_and_parse_html, try_except, getattr, lift. cbn.
  destruct (url self) as [u|] eqn:Hu; [|cbn; now rewrite ?Hu].
  destruct (requests_get_text u) as [html|e]; [|cbn; now rewrite Hu].
  cbn. destruct (re_findall color_pattern (str_upper html)); cbn;
    now rewrite Hu.
Qed.

Lemma fetch_and_parse_html_derived (self : analyzer) :
  exists b self' cs,
    fetch_and_parse_html requests_get_text str_upper re_findall self
    = (Ok b, self')
    /\ derived self' cs /\ cs <> [].
Proof.
  rewrite fetch_and_parse_html_run.
  destruct (url self) as [u|].
  - destruct (requests_get_text u) as [html|e].
    + cbv zeta.
      destruct (re_findall color_pattern (str_upper html)) as [|c found];
        do 3 eexists; (split; [reflexivity|]);
        (split; [split; reflexivity|discriminate]).
    + do 3 eexists. split; [reflexivity|].
      split; [split; reflexivity|discriminate].
  - do 3 eexists. split; [reflexivity|].
    split; [split; reflexivity|discriminate].
Qed.

(** C5. For every label sequence the counts of the table that [Counter]
    derives from it add up to the length of the sequence; this holds of
    the sequence and the table that [fetch_and_parse_html] leaves in the
    analyzer, whatever the fetch did. *)
Theorem frequency_table_sum_is_length :
  (forall cs : list string, py_sum (values (Counter cs)) = len cs)
  /\ (forall self : analyzer,
        exists b self' cs freqs,
          fetch_and_parse_html requests_get_text str_upper re_findall self
          = (Ok b, self')
          /\ colors self' = Some cs
          /\ color_frequencies self' = Some freqs
          /\ py_sum (values freqs) = len cs).
Proof.
  split; [exact Counter_sum|].
  intros self.
  destruct (fetch_and_parse_html_derived self)
    as (b & self' & cs & Hrun & [Hc Hf] & _).
  exists b, self', cs, (Counter cs).
  repeat (split; [assumption|]). apply Counter_sum.
Qed.

(** C6. When the fetch raises (reading [self.url] included), or returns a
    document in which the pattern finds no label, [fetch_and_parse_html]
    leaves the fixed fourteen-label sequence in [colors], the same one in
    both branches, with its table.  In every case it returns normally
    and the label sequence it leaves is non-empty. *)
Theorem fetch_and_parse_html_fallback (self : analyzer) :
  (exists b self' cs,
     fetch_and_parse_html requests_get_text str_upper re_findall self
     = (Ok b, self')
     /\ colors self' = Some cs /\ cs <> [])
  /\ (url self = None
      \/ (exists u e, url self = Some u /\ requests_get_text u = Raise e)
      \/ (exists u html_content,
            url self = Some u
            /\ requests_get_text u = Ok html_content
            /\ re_findall color_pattern (str_upper html_content) = []) ->
      exists b self',
        fetch_and_parse_html requests_get_text str_upper re_findall self
        = (Ok b, self')
        /\ colors self'
           = Some ["RED"; "GREEN"; "BLUE"; "RED"; "GREEN"; "BLUE"; "RED";
                   "YELLOW"; "BLUE"; "RED"; "GREEN"; "RED"; "BLUE"; "GREEN"]
        /\ color_frequencies self' = option_map Counter (colors self')
        /\ option_map len (colors self') = Some 14).
Proof.
  split.
  - destruct (fetch_and_parse_html_derived self)
      as (b & self' & cs & Hrun & [Hc Hf] & Hne).
    now exists b, self', cs.
  - rewrite fetch_and_parse_html_run.
    intros [Hu|[(u & e & Hu & Hget)|(u & html & Hu & Hget & Hfind)]];
      rewrite Hu; try rewrite Hget; try rewrite Hfind; cbv zeta;
      do 2 eexists; repeat split.
Qed.

End AcquisitionFacts.

Lemma fetch_and_parse_html_fallback_witness :
  exists b self',
    fetch_and_parse_html (fun _ => Ok "<td>red</td>") (fun s => s) (fun _ _ => [])
                         (mk_analyzer (Some "u") (Some []) (Some []))
    = (Ok b, self')
    /\ colors self'
       = Some ["RED"; "GREEN"; "BLUE"; "RED"; "GREEN"; "BLUE"; "RED";
               "YELLOW"; "BLUE"; "RED"; "GREEN"; "RED"; "BLUE"; "GREEN"]
    /\ color_frequencies self' = option_map Counter (colors self')
    /\ option_map len (colors self') = Some 14.
Proof.
  apply (fetch_and_parse_html_fallback
           (fun _ => Ok "<td>red</td>") (fun s => s) (fun _ _ => [])
           (mk_analyzer (Some "u") (Some []) (Some []))).
  right. right. exists "u", "<td>red</td>". repeat split; reflexivity.
Defined.

(** ** The queries do not write *)

Create HintDb read_only.

Lemma read_only_ret {A : Type} (a : A) : read_only (ret a : M A).
Proof. intros self. reflexivity. Qed.

Lemma read_only_lift {A : Type} (r : result A) : read_only (lift r).
Proof. intros self. reflexivity. Qed.

Lemma read_only_getattr {A : Type} (field : analyzer -> option A) :
  read_only (getattr field).
Proof. intros self. unfold getattr. now destruct (field self). Qed.

Lemma read_only_bind {A B : Type} (c : M A) (k : A -> M B) :
  read_only c -> (forall a, read_only (k a)) -> read_only (bind c k).
Proof.
  intros Hc Hk self. cbn. specialize (Hc self).
  destruct (c self) as [[a|e] self']; simpl in Hc; subst self'.
  - apply Hk.
  - reflexivity.
Qed.

Lemma read_only_if {A : Type} (b : bool) (c1 c2 : M A) :
  read_only c1 -> read_only c2 -> read_only (if b then c1 else c2).
Proof. now destruct b. Qed.

#[local] Hint Resolve read_only_ret read_only_lift read_only_getattr
  read_only_if : read_only.
#[local] Hint Extern 2 (read_only (bind _ _)) =>
  apply read_only_bind; [|intro] : read_only.

Lemma read_only_repeatable {A : Type} (q : M A) : read_only q -> repeatable q.
Proof. intros Hq self. now rewrite Hq. Qed.

Lemma get_mean_color_read_only : read_only get_mean_color.
Proof. unfold get_mean_color. auto 10 with read_only. Qed.

Lemma get_median_color_read_only : read_only get_median_color.
Proof. unfold get_median_color. cbv zeta. auto 10 with read_only. Qed.

Lemma get_color_variance_read_only : read_only get_color_variance.
Proof. unfold get_color_variance. cbv zeta. auto 12 with read_only. Qed.

Lemma get_red_probability_read_only : read_only get_red_probability.
Proof. unfold get_red_probability. cbv zeta. auto 10 with read_only. Qed.

(** C7. Each query ([get_mean_color], [get_most_frequent_color],
    [get_median_color], [get_color_variance], [get_red_probability]) leaves
    the analyzer, its [colors] and [color_frequencies] included, exactly as
    it was, whatever the state and whether it returns or raises; calling it
    again at once returns the same result. *)
Theorem queries_are_pure :
  (read_only get_mean_color /\ repeatable get_mean_color)
  /\ (read_only get_most_frequent_color /\ repeatable get_most_frequent_color)
  /\ (read_only get_median_color /\ repeatable get_median_color)
  /\ (read_only get_color_variance /\ repeatable get_color_variance)
  /\ (read_only get_red_probability /\ repeatable get_red_probability).
Proof.
  pose proof get_mean_color_read_only.
  pose proof get_median_color_read_only.
  pose proof get_color_variance_read_only.
  pose proof get_red_probability_read_only.
  unfold get_most_frequent_color.
  repeat split; auto using read_only_repeatable.
Qed.

(** ** Recursive search *)

Lemma recursive_search_step (depth : nat) (numbers : list Z)
      (target index x : Z) :
  0 <= index < len numbers ->
  nth_error numbers (Z.to_nat index) = Some x ->
  recursive_search (S depth) numbers target index
  = if x =? target then Ok index
    else recursive_search depth numbers target (index + 1).
Proof.
  intros Hi Hx. cbn [recursive_search].
  destruct (Z.geb_spec index (len numbers)) as [Hge|_]; [lia|].
  destruct (py_index_in_range numbers index Hi) as (y & Hy & Hnth).
  rewrite Hy. cbn [bind Monad_result].
  assert (E : y = x) by congruence. now rewrite E.
Qed.

Lemma recursive_search_past_end (depth : nat) (numbers : list Z)
      (target index : Z) :
  len numbers <= index ->
  recursive_search (S depth) numbers target index = Ok (-1).
Proof.
  intros Hi. cbn [recursive_search].
  destruct (Z.geb_spec index (len numbers)) as [_|Hlt]; [reflexivity|lia].
Qed.

Lemma nth_error_in_range {A : Type} (l : list A) (index : Z) :
  0 <= index < len l -> exists x, nth_error l (Z.to_nat index) = Some x.
Proof.
  intros Hi. destruct (nth_error l (Z.to_nat index)) as [x|] eqn:E; [eauto|].
  apply nth_error_None in E. unfold len in Hi. lia.
Qed.

(** With enough depth left for the rest of the list, the search from a
    start index [index >= 0] returns the leftmost match from there on, or
    [-1]. *)
Lemma recursive_search_from (depth : nat) (numbers : list Z)
      (target index : Z) :
  0 <= index -> Z.max 0 (len numbers - index) < Z.of_nat depth ->
  exists i,
    recursive_search depth numbers target index = Ok i
    /\ ((i = -1
         /\ forall j, index <= j < len numbers ->
                      nth_error numbers (Z.to_nat j) <> Some target)
        \/ (index <= i < len numbers
            /\ nth_error numbers (Z.to_nat i) = Some target
            /\ forall j, index <= j < i ->
                         nth_error numbers (Z.to_nat j) <> Some target)).
Proof.
  revert index. induction depth as [|depth IH]; intros index Hidx Hdepth; [lia|].
  destruct (Z_lt_le_dec index (len numbers)) as [Hlt|Hge].
  - destruct (nth_error_in_range numbers index) as (x & Hx); [lia|].
    rewrite (recursive_search_step depth numbers target index x) by (lia || assumption).
    destruct (Z.eqb_spec x target) as [->|Hne].
    + exists index. split; [reflexivity|]. right.
      split; [lia|]. split; [assumption|]. intros j Hj. lia.
    + assert (Hhere : forall j, index <= j < index + 1 ->
                                nth_error numbers (Z.to_nat j) <> Some target).
      { intros j Hj. replace j with index by lia. congruence. }
      destruct (IH (index + 1)) as (i & Hrun & [[Hi Hnone]|(Hi & Hat & Hbefore)]);
        [lia|lia| |].
      * exists i. split; [assumption|]. left. split; [assumption|].
        intros j Hj. destruct (Z.eq_dec j index) as [->|Hne'];
          [apply Hhere; lia|apply Hnone; lia].
      * exists i. split; [assumption|]. right. split; [lia|].
        split; [assumption|].
        intros j Hj. destruct (Z.eq_dec j index) as [->|Hne'];
          [apply Hhere; lia|apply Hbefore; lia].
  - rewrite recursive_search_past_end by assumption.
    exists (-1). split; [reflexivity|]. left. split; [reflexivity|].
    intros j Hj. lia.
Qed.

(** Without a match from the start index on, the search needs one call
    for every remaining element and one more. *)
Lemma recursive_search_absent (depth : nat) (numbers : list Z)
      (target index : Z) :
  0 <= index ->
  (forall j, index <= j < len numbers ->
             nth_error numbers (Z.to_nat j) <> Some target) ->
  Z.of_nat depth <= Z.max 0 (len numbers - index) ->
  recursive_search depth numbers target index = Raise RecursionError.
Proof.
  revert index. induction depth as [|depth IH]; intros index Hidx Hnone Hdepth;
    [reflexivity|].
  destruct (nth_error_in_range numbers index) as (x & Hx); [lia|].
  rewrite (recursive_search_step depth numbers target index x) by (lia || assumption).
  destruct (Z.eqb_spec x target) as [->|Hne].
  - exfalso. apply (Hnone index); [lia|assumption].
  - apply IH; [lia| |lia]. intros j Hj. apply Hnone. lia.
Qed.

Lemma not_In_nth_error {A : Type} (l : list A) (x : A) :
  ~ In x l -> forall j, nth_error l j <> Some x.
Proof. intros Hnin j Hj. apply Hnin. eapply nth_error_In; eauto. Qed.

(** C8, as the code has it.  Called with the default start index and with
    more nested calls left than the list has elements, [recursive_search]
    returns the index of the leftmost element equal to the target, or
    [-1] when no element is equal to it (at once on the empty list); so
    [recursive_search([1,5,8,12,15,20,25], 15)] is [4] and
    [recursive_search([], 7)] is [-1].  When no element is equal to the
    target and the nested calls left are not more than the elements, it
    raises [RecursionError]. *)
Theorem recursive_search_leftmost_within_depth :
  (forall (depth : nat) (numbers : list Z) (target : Z),
     (List.length numbers < depth)%nat ->
     exists i,
       recursive_search depth numbers target 0 = Ok i
       /\ ((i = -1 /\ ~ In target numbers)
           \/ (0 <= i < len numbers
               /\ nth_error numbers (Z.to_nat i) = Some target
               /\ forall j, (j < Z.to_nat i)%nat ->
                            nth_error numbers j <> Some target)))
  /\ (forall (depth : nat) (numbers : list Z) (target : Z),
        ~ In target numbers -> (depth <= List.length numbers)%nat ->
        recursive_search depth numbers target 0 = Raise RecursionError)
  /\ (forall depth : nat,
        (4 < depth)%nat ->
        recursive_search depth [1; 5; 8; 12; 15; 20; 25] 15 0 = Ok 4)
  /\ (forall depth : nat,
        (0 < depth)%nat -> recursive_search depth [] 7 0 = Ok (-1)).
Proof.
  split; [|split; [|split]].
  - intros depth numbers target Hdepth.
    destruct (recursive_search_from depth numbers target 0) as
      (i & Hrun & [[Hi Hnone]|(Hi & Hat & Hbefore)]);
      [lia|unfold len; lia| |]; exists i; (split; [assumption|]).
    + left. split; [assumption|]. intros Hin.
      apply In_nth_error in Hin. destruct Hin as [j Hj].
      apply (Hnone (Z.of_nat j)).
      * assert (j < List.length numbers)%nat
          by (apply nth_error_Some; congruence).
        unfold len. lia.
      * now rewrite Nat2Z.id.
    + right. split; [assumption|]. split; [assumption|].
      intros j Hj. specialize (Hbefore (Z.of_nat j)).
      rewrite Nat2Z.id in Hbefore. apply Hbefore. lia.
  - intros depth numbers target Hnin Hdepth.
    apply recursive_search_absent; [lia| |unfold len; lia].
    intros j _. now apply not_In_nth_error.
  - intros depth Hdepth.
    destruct depth as [|[|[|[|[|depth]]]]]; try lia. reflexivity.
  - intros depth Hdepth. destruct depth as [|depth]; [lia|reflexivity].
Qed.

Lemma recursive_search_leftmost_within_depth_witness :
  (exists i,
     recursive_search 4 [3; 7; 7] 7 0 = Ok i
     /\ ((i = -1 /\ ~ In 7 [3; 7; 7])
         \/ (0 <= i < len [3; 7; 7]
             /\ nth_error [3; 7; 7] (Z.to_nat i) = Some 7
             /\ forall j, (j < Z.to_nat i)%nat ->
                          nth_error [3; 7; 7] j <> Some 7)))
  /\ recursive_search 3 [3; 7; 7] 5 0 = Raise RecursionError
  /\ recursive_search 5 [1; 5; 8; 12; 15; 20; 25] 15 0 = Ok 4
  /\ recursive_search 1 [] 7 0 = Ok (-1).
Proof.
  split; [|split; [|split]].
  - apply (proj1 recursive_search_leftmost_within_depth 4%nat [3; 7; 7] 7).
    simpl. lia.
  - apply (proj1 (proj2 recursive_search_leftmost_within_depth) 3%nat [3; 7; 7] 5).
    + simpl. intros [H|[H|[H|[]]]]; discriminate H.
    + simpl. lia.
  - apply (proj1 (proj2 (proj2 recursive_search_leftmost_within_depth)) 5%nat).
    lia.
  - apply (proj2 (proj2 (proj2 recursive_search_leftmost_within_depth)) 1%nat).
    lia.
Defined.

(** C8 as it is worded fails: with the whole default recursion limit of
    1000 nested calls at its disposal, the search of a list of 1000
    elements none of which is the target raises [RecursionError] instead
    of returning [-1]. *)
Lemma recursive_search_long_list_raises :
  ~ In 1 (repeat 0 1000)
  /\ recursive_search default_recursion_limit (repeat 0 1000) 1 0
     = Raise RecursionError
  /\ recursive_search default_recursion_limit (repeat 0 1000) 1 0 <> Ok (-1).
Proof.
  split; [|split].
  - intros Hin. apply repeat_spec in Hin. discriminate Hin.
  - vm_compute. reflexivity.
  - vm_compute. discriminate.
Qed.

(** ** Fibonacci sum *)

Lemma fib_pair_spec (n : nat) : fib_pair n = (fib n, fib (S n)).
Proof.
  unfold fib. induction n as [|n IH]; [reflexivity|].
  simpl. destruct (fib_pair n) as [a b]. reflexivity.
Qed.

Lemma fib_rec (n : nat) : fib (S (S n)) = fib (S n) + fib n.
Proof.
  unfold fib at 1. simpl. rewrite fib_pair_spec. simpl. lia.
Qed.

(** C9. [sum_first_50_fibonacci] builds the list of [F0 .. F49] for the
    Fibonacci numbers with [F0 = 0] and [F1 = 1] and returns their sum,
    the integer [20365011073], which is [F51 - 1]. *)
Theorem sum_first_50_fibonacci_value :
  sum_first_50_fibonacci = Ok 20365011073
  /\ for_each fib_append [0; 1] (py_range 2 50) = Ok (map fib (seq 0 50))
  /\ py_sum (map fib (seq 0 50)) = 20365011073
  /\ fib 51 - 1 = 20365011073
  /\ fib 0 = 0 /\ fib 1 = 1
  /\ (forall n, fib (S (S n)) = fib (S n) + fib n).
Proof.
  repeat split; try (vm_compute; reflexivity). apply fib_rec.
Qed.

(** ** The documented run on the fallback sequence *)

(** An analyzer straight from [BincomColorAnalyzer()] has no [url]: the
    fetch raises [AttributeError] inside the [try] and the fallback
    sequence is installed. *)
Example fetch_on_fresh_analyzer
    (requests_get_text : string -> result string)
    (str_upper : string -> string)
    (re_findall : string -> string -> list string) :
  fetch_and_parse_html requests_get_text str_upper re_findall fresh_analyzer
  = (Ok false,
     mk_analyzer None (Some fallback_sequence)
       (Some [("RED", 5); ("GREEN", 4); ("BLUE", 4); ("YELLOW", 1)])).
Proof. reflexivity. Qed.

Example fallback_mode :
  fst (get_mean_color (mk_analyzer None (Some fallback_sequence)
                                   (Some (Counter fallback_sequence))))
  = Ok (Some "RED").
Proof. reflexivity. Qed.

Example fallback_median :
  fst (get_median_color (mk_analyzer None (Some fallback_sequence)
                                     (Some (Counter fallback_sequence))))
  = Ok (Some "GREEN").
Proof. reflexivity. Qed.

Example fallback_variance :
  exists q,
    fst (get_color_variance (mk_analyzer None (Some fallback_sequence)
                                         (Some (Counter fallback_sequence))))
    = Ok (PyFloat q)
    /\ (q == 9 # 4)%Q.
Proof. eexists. split; [reflexivity|]. vm_compute. reflexivity. Qed.

Example fallback_red_probability :
  fst (get_red_probability (mk_analyzer None (Some fallback_sequence)
                                        (Some (Counter fallback_sequence))))
  = Ok (PyFloat (5 # 14)).
Proof. reflexivity. Qed.

(** ** More on the variance *)







Lemma distinct_occurrences_sum (cs : list string) :
  py_sum (map (occurrences cs) (distinct cs)) = len cs.
Proof.
  rewrite <- Counter_sum, Counter_values.
  pose proof (Permutation_map (occurrences cs) (Counter_keys_distinct cs)) as Hp.
  revert Hp. generalize (map (occurrences cs) (keys (Counter cs))).
  generalize (map (occurrences cs) (distinct cs)).
  intros l1 l2 Hp. induction Hp; rewrite ?py_sum_cons; lia.
Qed.






(** ** More on the mode *)

Lemma py_sum_bound (xs : list Z) (m : Z) :
  Forall (fun x => x <= m) xs -> py_sum xs <= len xs * m.
Proof.
  unfold len. induction 1 as [|x xs Hx _ IH]; [reflexivity|].
  rewrite py_sum_cons. simpl List.length. lia.
Qed.

(** X2. A label that occurs strictly more often than every other label is
    what [get_mean_color] returns, wherever it stands in the sequence. *)
Theorem get_mean_color_strict_majority
    (self : analyzer) (cs : list string) (c0 : string) :
  derived self cs ->
  (forall c', c' <> c0 -> occurrences cs c' < occurrences cs c0) ->
  get_mean_color self = (Ok (Some c0), self).
Proof.
  intros Hd Hdom.
  assert (Hne : cs <> []).
  { intros ->.
    assert (Hdiff : String "a" c0 <> c0).
    { intros E. apply (f_equal String.length) in E. simpl in E. lia. }
    specialize (Hdom _ Hdiff). unfold occurrences in Hdom.
    simpl in Hdom. lia. }
  destruct (get_mean_color_split self cs Hd Hne)
    as (r & b & a & Hrun & Hsplit & Hb & Ha).
  destruct (mode_count_max cs r b a Hsplit Hb Ha) as [_ Hmax].
  destruct (string_dec (fst r) c0) as [E|Hneq].
  - now rewrite Hrun, E.
  - specialize (Hdom _ Hneq). specialize (Hmax c0). lia.
Qed.

Lemma get_mean_color_strict_majority_witness :
  get_mean_color (mk_analyzer None (Some ["B"; "A"; "A"])
                              (Some (Counter ["B"; "A"; "A"])))
  = (Ok (Some "A"), mk_analyzer None (Some ["B"; "A"; "A"])
                                (Some (Counter ["B"; "A"; "A"]))).
Proof.
  apply (get_mean_color_strict_majority
           (mk_analyzer None (Some ["B"; "A"; "A"]) (Some (Counter ["B"; "A"; "A"])))
           ["B"; "A"; "A"] "A").
  - split; reflexivity.
  - intros c' Hc'.
    destruct (in_dec string_dec c' ["B"; "A"; "A"]) as [Hin|Hnin].
    + simpl in Hin. destruct Hin as [<-|[<-|[<-|[]]]];
        try congruence; vm_compute; reflexivity.
    + unfold occurrences at 1.
      rewrite (proj1 (count_occ_not_In string_dec _ _) Hnin).
      vm_compute. reflexivity.
Defined.

(** X3. The count of the label [get_mean_color] returns is at least the mean
    count: multiplied by the number of distinct labels it reaches the
    length of the sequence. *)
Theorem get_mean_color_count_at_least_mean (self : analyzer) (cs : list string) :
  derived self cs -> cs <> [] ->
  exists c,
    get_mean_color self = (Ok (Some c), self)
    /\ 1 <= occurrences cs c
    /\ len cs <= len (distinct cs) * occurrences cs c.
Proof.
  intros Hd Hne.
  destruct (get_mean_color_split self cs Hd Hne)
    as (r & b & a & Hrun & Hsplit & Hb & Ha).
  destruct (mode_count_max cs r b a Hsplit Hb Ha) as [Hin Hmax].
  exists (fst r). split; [assumption|]. split.
  - apply occurrences_pos in Hin. lia.
  - rewrite <- distinct_occurrences_sum.
    replace (len (distinct cs)) with (len (map (occurrences cs) (distinct cs)))
      by (unfold len; now rewrite length_map).
    apply py_sum_bound. apply Forall_forall. intros x Hx.
    apply in_map_iff in Hx. destruct Hx as (d & <- & _). apply Hmax.
Qed.

Lemma get_mean_color_count_at_least_mean_witness :
  exists c,
    get_mean_color (mk_analyzer None (Some ["B"; "A"; "A"])
                                (Some (Counter ["B"; "A"; "A"])))
    = (Ok (Some c), mk_analyzer None (Some ["B"; "A"; "A"])
                                (Some (Counter ["B"; "A"; "A"])))
    /\ 1 <= occurrences ["B"; "A"; "A"] c
    /\ len ["B"; "A"; "A"]
       <= len (distinct ["B"; "A"; "A"]) * occurrences ["B"; "A"; "A"] c.
Proof.
  apply (get_mean_color_count_at_least_mean
           (mk_analyzer None (Some ["B"; "A"; "A"]) (Some (Counter ["B"; "A"; "A"])))
           ["B"; "A"; "A"]).
  - split; reflexivity.
  - discriminate.
Defined.

(** ** More on the median *)

Lemma sorted_permutation_eq (cs1 cs2 : list string) :
  Permutation cs1 cs2 -> sorted cs1 = sorted cs2.
Proof.
  intros Hp. apply ascending_unique; try apply sorted_StronglySorted.
  now rewrite !sorted_perm.
Qed.

(** X4. The median depends on the labels and how often each occurs, not on
    their order: two sequences that are rearrangements of each other have
    the same median. *)
Theorem get_median_color_permutation
    (self1 self2 : analyzer) (cs1 cs2 : list string) :
  colors self1 = Some cs1 -> colors self2 = Some cs2 ->
  Permutation cs1 cs2 ->
  fst (get_median_color self1) = fst (get_median_color self2).
Proof.
  intros H1 H2 Hp.
  destruct cs1 as [|c1 cs1'].
  - apply Permutation_nil in Hp. subst cs2.
    unfold get_median_color, getattr. cbn. now rewrite H1, H2.
  - assert (Hne2 : cs2 <> []).
    { intros ->. apply Permutation_sym, Permutation_nil in Hp. discriminate. }
    rewrite (get_median_color_run _ _ H1) by discriminate.
    rewrite (get_median_color_run _ _ H2 Hne2).
    rewrite (sorted_permutation_eq _ _ Hp).
    unfold len. now rewrite (Permutation_length Hp).
Qed.

Lemma get_median_color_permutation_witness :
  fst (get_median_color (mk_analyzer None (Some ["C"; "A"; "B"]) None))
  = fst (get_median_color (mk_analyzer None (Some ["B"; "C"; "A"]) None)).
Proof.
  apply (get_median_color_permutation
           (mk_analyzer None (Some ["C"; "A"; "B"]) None)
           (mk_analyzer None (Some ["B"; "C"; "A"]) None)
           ["C"; "A"; "B"] ["B"; "C"; "A"]).
  - reflexivity.
  - reflexivity.
  - apply Permutation_sym, (Permutation_cons_app ["C"; "A"] [] "B").
    apply Permutation_refl.
Defined.

Lemma StronglySorted_app_pairs {A : Type} (R : A -> A -> Prop) (l1 l2 : list A) :
  StronglySorted R (l1 ++ l2) ->
  forall x y, In x l1 -> In y l2 -> R x y.
Proof.
  induction l1 as [|a l1 IH]; simpl; intros Hs x y Hx Hy; [destruct Hx|].
  inversion Hs as [|? ? Hs' Hall]; subst.
  destruct Hx as [<-|Hx].
  - rewrite Forall_forall in Hall. apply Hall, in_or_app. now right.
  - now apply IH.
Qed.

Lemma filter_all {A : Type} (p : A -> bool) (l : list A) :
  (forall x, In x l -> p x = true) -> filter p l = l.
Proof.
  induction l as [|a l IH]; simpl; intros H; [reflexivity|].
  rewrite (H a) by now left. f_equal. apply IH. auto.
Qed.

Lemma count_if_permutation (p : string -> bool) (l1 l2 : list string) :
  Permutation l1 l2 -> count_if p l1 = count_if p l2.
Proof.
  unfold count_if, len. intros Hp. f_equal.
  induction Hp as [|x l1 l2 _ IH|x y l|l1 l2 l3 _ IH1 _ IH2]; simpl.
  - reflexivity.
  - destruct (p x); simpl; now rewrite IH.
  - destruct (p x), (p y); reflexivity.
  - now rewrite IH1.
Qed.

Lemma count_if_app (p : string -> bool) (l1 l2 : list string) :
  count_if p (l1 ++ l2) = count_if p l1 + count_if p l2.
Proof. unfold count_if, len. rewrite filter_app, length_app. lia. Qed.

Lemma count_if_cons (p : string -> bool) (x : string) (l : list string) :
  count_if p (x :: l) = (if p x then 1 else 0) + count_if p l.
Proof.
  unfold count_if, len. cbn [filter].
  destruct (p x); cbn [List.length]; lia.
Qed.

Lemma count_if_nonneg (p : string -> bool) (l : list string) :
  0 <= count_if p l.
Proof. unfold count_if, len. lia. Qed.

Lemma count_if_all (p : string -> bool) (l : list string) :
  (forall x, In x l -> p x = true) -> count_if p l = len l.
Proof. intros H. unfold count_if. now rewrite filter_all. Qed.

Lemma string_leb_refl (s : string) : String.leb s s = true.
Proof. now destruct (String.leb_total s s). Qed.

Lemma median_index_bounds (n : Z) :
  0 < n ->
  0 <= median_index n < n
  /\ n <= 2 * (median_index n + 1)
  /\ n < 2 * (n - median_index n).
Proof.
  intros Hn. unfold median_index.
  pose proof (Zmod_odd n) as Hodd.
  pose proof (Z.div_mod n 2 ltac:(lia)) as Hdm.
  pose proof (Z.div_mod (n - 1) 2 ltac:(lia)) as Hdm'.
  pose proof (Z.mod_pos_bound (n - 1) 2 ltac:(lia)) as Hb.
  destruct (Z.odd n); lia.
Qed.

Lemma get_median_color_member (self : analyzer) (cs : list string) :
  colors self = Some cs -> cs <> [] ->
  exists m,
    get_median_color self = (Ok (Some m), self)
    /\ nth_error (sorted cs) (Z.to_nat (median_index (len cs))) = Some m
    /\ In m cs.
Proof.
  intros Hc Hne.
  assert (Hn : 0 < len cs)
    by (unfold len; destruct cs; [congruence|simpl; lia]).
  destruct (median_index_bounds _ Hn) as (Hidx & _).
  assert (Hr : 0 <= median_index (len cs) < len (sorted cs))
    by now rewrite sorted_len.
  destruct (py_index_in_range _ _ Hr) as (m & Hrun & Hnth).
  exists m. split; [|split; [assumption|]].
  - rewrite (get_median_color_run _ _ Hc Hne). now rewrite Hrun.
  - apply (Permutation_in _ (sorted_perm cs)). eapply nth_error_In; eauto.
Qed.

(** X5. The median is a lower median: at least half of the labels are less
    than or equal to it, and more than half are greater than or equal to
    it. *)
Theorem get_median_color_splits_sequence (self : analyzer) (cs : list string) :
  colors self = Some cs -> cs <> [] ->
  exists m,
    get_median_color self = (Ok (Some m), self)
    /\ len cs <= 2 * count_if (fun c => String.leb c m) cs
    /\ len cs < 2 * count_if (fun c => String.leb m c) cs.
Proof.
  intros Hc Hne.
  assert (Hn : 0 < len cs)
    by (unfold len; destruct cs; [congruence|simpl; lia]).
  destruct (median_index_bounds _ Hn) as (Hidx & Hlow & Hhigh).
  destruct (get_median_color_member self cs Hc Hne) as (m & Hrun & Hnth & _).
  exists m. split; [assumption|].
  apply nth_error_split in Hnth. destruct Hnth as (l1 & l2 & Hs & Hlen).
  pose proof (sorted_StronglySorted cs) as Hsorted. rewrite Hs in Hsorted.
  pose proof (sorted_len cs) as Hslen. rewrite Hs in Hslen.
  unfold len in Hslen. rewrite length_app in Hslen. simpl in Hslen.
  rewrite <- !(count_if_permutation _ _ _ (sorted_perm cs)), Hs.
  rewrite !count_if_app.
  split.
  - assert (H1 : count_if (fun c => String.leb c m) l1 = len l1).
    { apply count_if_all. intros x Hx.
      apply (StronglySorted_app_pairs _ _ _ Hsorted x m Hx). now left. }
    assert (H2 : 1 <= count_if (fun c => String.leb c m) (m :: l2)).
    { rewrite count_if_cons, string_leb_refl.
      pose proof (count_if_nonneg (fun c => String.leb c m) l2). lia. }
    unfold len in *. lia.
  - assert (H2 : count_if (fun c => String.leb m c) (m :: l2) = len (m :: l2)).
    { apply count_if_all. intros x [<-|Hx]; [apply string_leb_refl|].
      change (l1 ++ m :: l2)%list with (l1 ++ [m] ++ l2)%list in Hsorted.
      rewrite app_assoc in Hsorted.
      apply (StronglySorted_app_pairs _ _ _ Hsorted m x); [|assumption].
      apply in_or_app. right. now left. }
    pose proof (count_if_nonneg (fun c => String.leb m c) l1).
    unfold len in *. simpl List.length in H2. lia.
Qed.

Lemma get_median_color_splits_sequence_witness :
  exists m,
    get_median_color (mk_analyzer None (Some ["C"; "A"; "B"; "A"]) None)
    = (Ok (Some m), mk_analyzer None (Some ["C"; "A"; "B"; "A"]) None)
    /\ len ["C"; "A"; "B"; "A"]
       <= 2 * count_if (fun c => String.leb c m) ["C"; "A"; "B"; "A"]
    /\ len ["C"; "A"; "B"; "A"]
       < 2 * count_if (fun c => String.leb m c) ["C"; "A"; "B"; "A"].
Proof.
  apply (get_median_color_splits_sequence
           (mk_analyzer None (Some ["C"; "A"; "B"; "A"]) None)
           ["C"; "A"; "B"; "A"]).
  - reflexivity.
  - discriminate.
Defined.

(** ** More on the probability of red *)






(** ** The attributes must exist *)

(** X7. On an analyzer whose [colors] was never assigned, as one straight from
    the constructor, the three queries that read it raise
    [AttributeError] and leave the analyzer as it is. *)
Theorem queries_without_colors (self : analyzer) :
  colors self = None ->
  get_median_color self = (Raise AttributeError, self)
  /\ get_color_variance self = (Raise AttributeError, self)
  /\ get_red_probability self = (Raise AttributeError, self).
Proof.
  intros Hc.
  unfold get_median_color, get_color_variance, get_red_probability, getattr.
  cbn. rewrite Hc. auto.
Qed.

Lemma queries_without_colors_witness :
  get_median_color fresh_analyzer = (Raise AttributeError, fresh_analyzer)
  /\ get_color_variance fresh_analyzer = (Raise AttributeError, fresh_analyzer)
  /\ get_red_probability fresh_analyzer = (Raise AttributeError, fresh_analyzer).
Proof. apply (queries_without_colors fresh_analyzer). reflexivity. Defined.

(** X8. On an analyzer whose [color_frequencies] was never assigned,
    [get_mean_color] and [get_most_frequent_color] raise
    [AttributeError], and so does [save_to_postgresql], before any call
    to the database. *)
Theorem queries_without_color_frequencies (self : analyzer) :
  color_frequencies self = None ->
  get_mean_color self = (Raise AttributeError, self)
  /\ get_most_frequent_color self = (Raise AttributeError, self)
  /\ forall db_raises db_params log,
       save_to_postgresql db_raises db_params self log
       = (Raise AttributeError, log).
Proof.
  intros Hf.
  unfold get_most_frequent_color, get_mean_color, save_to_postgresql, getattr.
  cbn. rewrite Hf. auto.
Qed.

Lemma queries_without_color_frequencies_witness :
  get_mean_color fresh_analyzer = (Raise AttributeError, fresh_analyzer)
  /\ get_most_frequent_color fresh_analyzer
     = (Raise AttributeError, fresh_analyzer)
  /\ forall db_raises db_params log,
       save_to_postgresql db_raises db_params fresh_analyzer log
       = (Raise AttributeError, log).
Proof.
  apply (queries_without_color_frequencies fresh_analyzer). reflexivity.
Defined.

(** X9. After [init] the analyzer holds the empty sequence with the empty
    table, whatever it held before; every query then returns its empty
    answer and [save_to_postgresql] returns [False] without a call to the
    database. *)
Theorem init_then_queries (self : analyzer) :
  exists self',
    init self = (Ok tt, self')
    /\ derived self' []
    /\ get_mean_color self' = (Ok None, self')
    /\ get_most_frequent_color self' = (Ok None, self')
    /\ get_median_color self' = (Ok None, self')
    /\ get_color_variance self' = (Ok (PyInt 0), self')
    /\ get_red_probability self' = (Ok (PyInt 0), self')
    /\ forall db_raises db_params log,
         save_to_postgresql db_raises db_params self' log = (Ok false, log).
Proof.
  eexists. split; [reflexivity|]. split; [split; reflexivity|].
  repeat split.
Qed.

(** ** More on the acquisition *)


Section MoreAcquisitionFacts.

Variable requests_get_text : string -> result string.
Variable str_upper : string -> string.
Variable re_findall : string -> string -> list string.

(** X10. [fetch_and_parse_html] returns [True] exactly when [self.url] exists
    and the request returned a document, whether or not a label was found
    in it; in every other case it returns [False]. *)
Theorem fetch_and_parse_html_flag (self : analyzer) :
  exists b self',
    fetch_and_parse_html requests_get_text str_upper re_findall self
    = (Ok b, self')
    /\ (b = true <->
        exists u html_content,
          url self = Some u /\ requests_get_text u = Ok html_content).
Proof.
  rewrite fetch_and_parse_html_run.
  destruct (url self) as [u|].
  - destruct (requests_get_text u) as [html|e] eqn:Hget.
    + cbv zeta. do 2 eexists. split; [reflexivity|].
      split; [intros _; now exists u, html|reflexivity].
    + do 2 eexists. split; [reflexivity|].
      split; [discriminate|].
      intros (u' & html & Hu & Hok). inversion Hu; subst u'. congruence.
  - do 2 eexists. split; [reflexivity|].
    split; [discriminate|]. intros (u & html & Hu & _). discriminate Hu.
Qed.

(** X12. What [colors] and [color_frequencies] held before the call does not
    matter: analyzers with the same [url] end in the same state with the
    same result, and that state has the same [url]. *)
Theorem fetch_and_parse_html_overwrites (self1 self2 : analyzer) :
  url self1 = url self2 ->
  fetch_and_parse_html requests_get_text str_upper re_findall self1
  = fetch_and_parse_html requests_get_text str_upper re_findall self2
  /\ url (snd (fetch_and_parse_html requests_get_text str_upper re_findall
                                     self1))
     = url self1.
Proof.
  intros Hu. rewrite !fetch_and_parse_html_run, <- Hu.
  split; [reflexivity|].
  destruct (url self1) as [u|]; [|reflexivity].
  destruct (requests_get_text u); reflexivity.
Qed.

(** X13. After [fetch_and_parse_html], whatever happened, the table has one
    entry for each distinct label of [colors] and no other: looking a
    label up gives its number of occurrences, every stored count is at
    least 1, and no key is stored twice. *)
Theorem fetch_and_parse_html_table (self : analyzer) :
  exists b self' cs freqs,
    fetch_and_parse_html requests_get_text str_upper re_findall self
    = (Ok b, self')
    /\ colors self' = Some cs
    /\ color_frequencies self' = Some freqs
    /\ NoDup (keys freqs)
    /\ (forall c, dict_get c 0 freqs = occurrences cs c)
    /\ (forall c, In c (keys freqs) <-> In c cs)
    /\ (forall c n, In (c, n) (items freqs) -> n = occurrences cs c /\ 1 <= n).
Proof.
  destruct (fetch_and_parse_html_derived requests_get_text str_upper
              re_findall self) as (b & self' & cs & Hrun & [Hc Hf] & _).
  exists b, self', cs, (Counter cs).
  repeat (split; [assumption|]).
  split; [apply Counter_keys_NoDup|].
  split; [apply Counter_get|].
  split; [apply Counter_keys_In|].
  intros c n Hin. destruct (Counter_items _ _ _ Hin) as [Hc' ->].
  split; [reflexivity|]. apply occurrences_pos in Hc'. lia.
Qed.


End MoreAcquisitionFacts.

(** *** The labels never come from the document *)

Lemma ascii_upper_char_not_lower_t (c : ascii) : ascii_upper_char c <> "t"%char.
Proof.
  destruct c as [[] [] [] [] [] [] [] []]; vm_compute; discriminate.
Qed.

Lemma ascii_upper_no_lower_t (s : string) : no_lower_t (ascii_upper s).
Proof.
  induction s as [|c s IH]; simpl; [exact I|].
  split; [apply ascii_upper_char_not_lower_t|exact IH].
Qed.

Lemma match_cell_needs_lower_t (s : string) :
  no_lower_t s -> match_cell s = None.
Proof.
  intros H. unfold match_cell.
  destruct s as [|a [|b s]]; cbn [strip_prefix].
  - reflexivity.
  - now destruct (Ascii.eqb "<" a).
  - destruct (Ascii.eqb "<" a); [|reflexivity].
    destruct (Ascii.eqb_spec "t" b) as [E|_]; [|reflexivity].
    cbn [no_lower_t] in H. destruct H as [_ [Hb _]]. congruence.
Qed.

Lemma findall_cells_needs_lower_t (steps : nat) (s : string) :
  no_lower_t s -> findall_cells steps s = [].
Proof.
  revert s. induction steps as [|steps IH]; intros s H; simpl; [reflexivity|].
  rewrite (match_cell_needs_lower_t s H).
  destruct s as [|c s']; [reflexivity|]. apply IH. exact (proj2 H).
Qed.

Lemma findall_color_cells_needs_lower_t (text : string) :
  no_lower_t text -> findall_color_cells color_pattern text = [].
Proof.
  intros H. unfold findall_color_cells. rewrite String.eqb_refl.
  now apply findall_cells_needs_lower_t.
Qed.

Section DeadPattern.

Variable requests_get_text : string -> result string.
Variable str_upper : string -> string.
Variable re_findall : string -> string -> list string.

(** Two facts of the library: upper-casing leaves no lower-case t, and
    [color_pattern], which spells its tags in lower case and is matched
    with regard to case, finds nothing in a text without one. *)
Hypothesis str_upper_no_lower_t : forall s, no_lower_t (str_upper s).
Hypothesis re_findall_needs_lower_t :
  forall text, no_lower_t text -> re_findall color_pattern text = [].

(** X11. The pattern is matched against the upper-cased document, in which
    its lower-case tags cannot occur: whatever the request returns,
    [colors] becomes the fallback sequence and [color_frequencies] its
    table; [url] stays.  No label ever comes from the document. *)
Theorem fetch_and_parse_html_never_finds (self : analyzer) :
  exists b,
    fetch_and_parse_html requests_get_text str_upper re_findall self
    = (Ok b, mk_analyzer (url self) (Some fallback_sequence)
                         (Some (Counter fallback_sequence))).
Proof.
  rewrite fetch_and_parse_html_run.
  destruct (url self) as [u|]; [|now exists false].
  destruct (requests_get_text u) as [html_content|e]; [|now exists false].
  cbv zeta.
  rewrite (re_findall_needs_lower_t _ (str_upper_no_lower_t html_content)).
  now exists true.
Qed.

End DeadPattern.

Lemma fetch_and_parse_html_never_finds_witness :
  exists b,
    fetch_and_parse_html
      (fun _ => Ok "<table><tr><td>red</td><td class=c>Blue</td></tr></table>")
      ascii_upper findall_color_cells (mk_analyzer (Some "u") None None)
    = (Ok b, mk_analyzer (url (mk_analyzer (Some "u") None None))
                         (Some fallback_sequence)
                         (Some (Counter fallback_sequence))).
Proof.
  apply (fetch_and_parse_html_never_finds
           (fun _ => Ok "<table><tr><td>red</td><td class=c>Blue</td></tr></table>")
           ascii_upper findall_color_cells
           ascii_upper_no_lower_t findall_color_cells_needs_lower_t
           (mk_analyzer (Some "u") None None)).
Defined.

(** The matcher of the witness does find the labels of a document whose
    tags are in lower case and whose labels are in upper case. *)
Example findall_color_cells_finds :
  findall_color_cells color_pattern
    "<tr><td>RED</td><td class=c>BLUE</td><td>GREENISH</td><TD>PINK</TD></tr>"
  = ["RED"; "BLUE"].
Proof. vm_compute. reflexivity. Qed.

Lemma fetch_and_parse_html_overwrites_witness :
  fetch_and_parse_html (fun _ => Ok "doc") (fun s => s) (fun _ _ => ["PINK"])
                       (mk_analyzer (Some "u") None None)
  = fetch_and_parse_html (fun _ => Ok "doc") (fun s => s) (fun _ _ => ["PINK"])
                         (mk_analyzer (Some "u") (Some ["RED"]) (Some [("RED", 1)]))
  /\ url (snd (fetch_and_parse_html (fun _ => Ok "doc") (fun s => s)
                                    (fun _ _ => ["PINK"])
                                    (mk_analyzer (Some "u") None None)))
     = url (mk_analyzer (Some "u") None None).
Proof.
  apply (fetch_and_parse_html_overwrites
           (fun _ => Ok "doc") (fun s => s) (fun _ _ => ["PINK"])
           (mk_analyzer (Some "u") None None)
           (mk_analyzer (Some "u") (Some ["RED"]) (Some [("RED", 1)]))).
  reflexivity.
Defined.

(** ** More on the recursive search *)

Lemma py_index_raises {A : Type} (l : list A) (i : Z) (e : exn) :
  py_index l i = Raise e -> e = IndexError /\ (i < - len l \/ len l <= i).
Proof.
  unfold py_index, len. intros H.
  destruct (Z.ltb_spec i 0) as [Hneg|Hpos]; cbv zeta in H.
  - destruct (Z.ltb_spec (i + Z.of_nat (List.length l)) 0) as [Hlow|Hok].
    + inversion H. split; [reflexivity|lia].
    + destruct (nth_error l (Z.to_nat (i + Z.of_nat (List.length l)))) eqn:E;
        [discriminate|].
      apply nth_error_None in E. lia.
  - destruct (Z.ltb_spec i 0) as [Hlow|_]; [lia|].
    destruct (nth_error l (Z.to_nat i)) eqn:E; [discriminate|].
    inversion H. split; [reflexivity|].
    apply nth_error_None in E. lia.
Qed.

Lemma py_index_below {A : Type} (l : list A) (i : Z) :
  i < - len l -> py_index l i = Raise IndexError.
Proof.
  intros Hi. unfold py_index, len in *.
  destruct (Z.ltb_spec i 0) as [_|Hpos]; [|lia]. cbv zeta.
  destruct (Z.ltb_spec (i + Z.of_nat (List.length l)) 0); [reflexivity|lia].
Qed.

(** X15. A start index below [-len(numbers)] makes [recursive_search] raise
    [IndexError], on the empty list as well: the first call, which any
    depth left allows, indexes outside the list. *)
Theorem recursive_search_index_error
    (depth : nat) (numbers : list Z) (target index : Z) :
  index < - len numbers ->
  recursive_search (S depth) numbers target index = Raise IndexError.
Proof.
  intros Hidx. cbn [recursive_search].
  destruct (Z.geb_spec index (len numbers)) as [Hge|_];
    [unfold len in *; lia|].
  now rewrite py_index_below.
Qed.

Lemma recursive_search_index_error_witness :
  recursive_search 1 [1; 2] 2 (-3) = Raise IndexError.
Proof.
  apply (recursive_search_index_error 0 [1; 2] 2 (-3)). reflexivity.
Defined.

(** X16. From a start index not below [-len(numbers)] the search never
    raises [IndexError]: either it returns, and a result other than [-1]
    is a position from the start index on that holds an element equal to
    the target, or it raises [RecursionError], and then the depth left was
    not more than the number of positions from the start index to the end
    of the list. *)
Theorem recursive_search_result_sound
    (depth : nat) (numbers : list Z) (target index : Z) :
  - len numbers <= index ->
  (exists i,
     recursive_search depth numbers target index = Ok i
     /\ (i = -1
         \/ (index <= i < len numbers /\ py_index numbers i = Ok target)))
  \/ (recursive_search depth numbers target index = Raise RecursionError
      /\ Z.of_nat depth <= Z.max 0 (len numbers - index)).
Proof.
  revert index. induction depth as [|depth IH]; intros index Hidx.
  - right. split; [reflexivity|lia].
  - cbn [recursive_search].
    destruct (Z.geb_spec index (len numbers)) as [Hge|Hlt].
    + left. exists (-1). split; [reflexivity|now left].
    + destruct (py_index numbers index) as [x|e] eqn:Hx.
      * cbn [bind Monad_result].
        destruct (Z.eqb_spec x target) as [->|Hne].
        -- left. exists index. split; [reflexivity|]. right.
           split; [lia|assumption].
        -- destruct (IH (index + 1)) as [(i & Hrun & Hi)|[Hrun Hd]]; [lia| |].
           ++ left. exists i. split; [assumption|].
              destruct Hi as [Hi|[Hi Hat]]; [now left|right].
              split; [lia|assumption].
           ++ right. split; [assumption|lia].
      * apply py_index_raises in Hx. destruct Hx as [_ [Hx|Hx]]; lia.
Qed.

Lemma recursive_search_result_sound_witness :
  (exists i,
     recursive_search 2 [4; 5; 6] 5 (-2) = Ok i
     /\ (i = -1 \/ (-2 <= i < len [4; 5; 6] /\ py_index [4; 5; 6] i = Ok 5)))
  \/ (recursive_search 2 [4; 5; 6] 5 (-2) = Raise RecursionError
      /\ Z.of_nat 2 <= Z.max 0 (len [4; 5; 6] - -2)).
Proof.
  apply (recursive_search_result_sound 2 [4; 5; 6] 5 (-2)).
  vm_compute. discriminate.
Defined.

(** X17. Started at index [-1], a match on the last element is reported as
    [-1], the value that also stands for "not found"; the one call this
    takes is allowed by any depth left. *)
Theorem recursive_search_last_element_collision
    (depth : nat) (numbers : list Z) (target : Z) :
  recursive_search (S depth) (numbers ++ [target]) target (-1) = Ok (-1).
Proof.
  assert (Hlast : py_index (numbers ++ [target]) (-1) = Ok target).
  { unfold py_index, len. rewrite length_app. simpl List.length.
    change (-1 <? 0) with true. cbv iota zeta.
    destruct (Z.ltb_spec (-1 + Z.of_nat (List.length numbers + 1)) 0); [lia|].
    replace (Z.to_nat (-1 + Z.of_nat (List.length numbers + 1)))
      with (List.length numbers) by lia.
    now rewrite nth_error_app2, Nat.sub_diag by lia. }
  cbn [recursive_search].
  destruct (Z.geb_spec (-1) (len (numbers ++ [target]))) as [Hge|_];
    [unfold len in Hge; lia|].
  rewrite Hlast. cbn [bind Monad_result]. now rewrite Z.eqb_refl.
Qed.

Lemma recursive_search_shift (depth : nat) (numbers : list Z)
      (target index j : Z) :
  0 <= index -> 0 <= j ->
  recursive_search depth numbers target (index + j)
  = shift_result index
      (recursive_search depth (skipn (Z.to_nat index) numbers) target j).
Proof.
  intros Hidx. revert j.
  set (suffix := skipn (Z.to_nat index) numbers).
  assert (Hnth : forall j, 0 <= j ->
            nth_error suffix (Z.to_nat j)
            = nth_error numbers (Z.to_nat (index + j))).
  { intros j Hj. unfold suffix. rewrite nth_error_skipn. f_equal. lia. }
  assert (Hlen : len suffix = Z.max 0 (len numbers - index)).
  { unfold suffix, len. rewrite length_skipn. lia. }
  induction depth as [|depth IH]; intros j Hj; [reflexivity|].
  destruct (Z_lt_le_dec j (len suffix)) as [Hlt|Hge].
  - destruct (nth_error_in_range suffix j) as (x & Hx); [lia|].
    rewrite (recursive_search_step depth suffix target j x) by (lia || assumption).
    rewrite Hnth in Hx by lia.
    rewrite (recursive_search_step depth numbers target (index + j) x)
      by (lia || assumption).
    destruct (Z.eqb_spec x target) as [_|_].
    + cbn [shift_result]. destruct (Z.eqb_spec j (-1)); [lia|reflexivity].
    + rewrite <- IH by lia. f_equal. lia.
  - rewrite !recursive_search_past_end by lia. reflexivity.
Qed.

(** X18. Searching from a start index [index >= 0] is searching the list
    without its first [index] elements, with the position shifted back by
    [index]: with the same depth left the two searches return, or raise,
    alike. *)
Theorem recursive_search_suffix
    (depth : nat) (numbers : list Z) (target index : Z) :
  0 <= index ->
  match recursive_search depth (skipn (Z.to_nat index) numbers) target 0 with
  | Ok i =>
      recursive_search depth numbers target index
      = Ok (if i =? -1 then -1 else index + i)
  | Raise e => recursive_search depth numbers target index = Raise e
  end.
Proof.
  intros Hidx.
  pose proof (recursive_search_shift depth numbers target index 0 Hidx) as H.
  rewrite Z.add_0_r in H. specialize (H ltac:(lia)).
  destruct (recursive_search depth (skipn (Z.to_nat index) numbers) target 0);
    exact H.
Qed.

Lemma recursive_search_suffix_witness :
  match recursive_search 3 (skipn (Z.to_nat 2) [7; 8; 7; 9]) 7 0 with
  | Ok i => recursive_search 3 [7; 8; 7; 9] 7 2
            = Ok (if i =? -1 then -1 else 2 + i)
  | Raise e => recursive_search 3 [7; 8; 7; 9] 7 2 = Raise e
  end.
Proof. apply (recursive_search_suffix 3 [7; 8; 7; 9] 7 2). lia. Defined.

(** ** The random binary number *)

Lemma draw_bit_cases (g : rng) (i : nat) : draw_bit g i = 0 \/ draw_bit g i = 1.
Proof.
  unfold draw_bit.
  pose proof (Z.mod_pos_bound (Z.of_nat (raw g (i + drawn g))) 2). lia.
Qed.

Lemma collect_bits (g : rng) :
  st_collect (py_range 0 4)
    (fun _ => n <- randint 0 1 ;; ret (str_of_int n)) g
  = (Ok (map str_of_int
           [draw_bit g 0; draw_bit g 1; draw_bit g 2; draw_bit g 3]),
     mk_rng (raw g) (4 + drawn g)).
Proof. reflexivity. Qed.

Lemma generate_binary_to_decimal_run (g : rng) :
  generate_binary_to_decimal g
  = (match int_base2 (str_join (map str_of_int
                                    [draw_bit g 0; draw_bit g 1;
                                     draw_bit g 2; draw_bit g 3])) with
     | Ok n => Ok (str_join (map str_of_int
                               [draw_bit g 0; draw_bit g 1;
                                draw_bit g 2; draw_bit g 3]), n)
     | Raise e => Raise e
     end,
     mk_rng (raw g) (4 + drawn g)).
Proof.
  unfold generate_binary_to_decimal.
  cbn [bind Monad_ST]. rewrite collect_bits. cbv zeta. unfold st_lift.
  destruct (int_base2 _); reflexivity.
Qed.

Lemma bits_string_value (d0 d1 d2 d3 : Z) :
  (d0 = 0 \/ d0 = 1) -> (d1 = 0 \/ d1 = 1) ->
  (d2 = 0 \/ d2 = 1) -> (d3 = 0 \/ d3 = 1) ->
  let s := str_join (map str_of_int [d0; d1; d2; d3]) in
  int_base2 s = Ok (8 * d0 + 4 * d1 + 2 * d2 + d3)
  /\ String.length s = 4%nat
  /\ binary_digits s.
Proof.
  intros [-> | ->] [-> | ->] [-> | ->] [-> | ->]; vm_compute; intuition.
Qed.

(** X19. [generate_binary_to_decimal] never raises.  It draws four bits; the
    string is made of these four binary digits in the order drawn, and
    the number is their value with the first bit drawn as the most
    significant, so it lies in [0 .. 15]. *)
Theorem generate_binary_to_decimal_value (g : rng) :
  exists binary_number decimal_number g',
    generate_binary_to_decimal g = (Ok (binary_number, decimal_number), g')
    /\ String.length binary_number = 4%nat
    /\ binary_digits binary_number
    /\ int_base2 binary_number = Ok decimal_number
    /\ decimal_number
       = 8 * draw_bit g 0 + 4 * draw_bit g 1 + 2 * draw_bit g 2 + draw_bit g 3
    /\ 0 <= decimal_number <= 15
    /\ raw g' = raw g /\ drawn g' = (4 + drawn g)%nat.
Proof.
  rewrite generate_binary_to_decimal_run.
  pose proof (draw_bit_cases g 0) as H0. pose proof (draw_bit_cases g 1) as H1.
  pose proof (draw_bit_cases g 2) as H2. pose proof (draw_bit_cases g 3) as H3.
  destruct (bits_string_value _ _ _ _ H0 H1 H2 H3) as (Hint & Hlen & Hdig).
  cbv zeta in Hint. rewrite Hint.
  do 3 eexists. split; [reflexivity|].
  repeat (split; [assumption || reflexivity|]).
  split; [lia|]. split; reflexivity.
Qed.

Lemma bits_value_injective (a0 a1 a2 a3 b0 b1 b2 b3 : Z) :
  (a0 = 0 \/ a0 = 1) -> (a1 = 0 \/ a1 = 1) ->
  (a2 = 0 \/ a2 = 1) -> (a3 = 0 \/ a3 = 1) ->
  (b0 = 0 \/ b0 = 1) -> (b1 = 0 \/ b1 = 1) ->
  (b2 = 0 \/ b2 = 1) -> (b3 = 0 \/ b3 = 1) ->
  8 * a0 + 4 * a1 + 2 * a2 + a3 = 8 * b0 + 4 * b1 + 2 * b2 + b3 ->
  a0 = b0 /\ a1 = b1 /\ a2 = b2 /\ a3 = b3.
Proof. lia. Qed.

(** X20. The two results determine each other: two calls return the same
    string exactly when they return the same number. *)
Theorem generate_binary_to_decimal_injective
    (g1 g2 : rng) (s1 s2 : string) (n1 n2 : Z) :
  fst (generate_binary_to_decimal g1) = Ok (s1, n1) ->
  fst (generate_binary_to_decimal g2) = Ok (s2, n2) ->
  (s1 = s2 <-> n1 = n2).
Proof.
  rewrite !generate_binary_to_decimal_run. cbn [fst].
  pose proof (draw_bit_cases g1 0) as A0. pose proof (draw_bit_cases g1 1) as A1.
  pose proof (draw_bit_cases g1 2) as A2. pose proof (draw_bit_cases g1 3) as A3.
  pose proof (draw_bit_cases g2 0) as B0. pose proof (draw_bit_cases g2 1) as B1.
  pose proof (draw_bit_cases g2 2) as B2. pose proof (draw_bit_cases g2 3) as B3.
  set (sa := str_join (map str_of_int [draw_bit g1 0; draw_bit g1 1;
                                      draw_bit g1 2; draw_bit g1 3])).
  set (sb := str_join (map str_of_int [draw_bit g2 0; draw_bit g2 1;
                                      draw_bit g2 2; draw_bit g2 3])).
  assert (Ha : int_base2 sa = Ok (8 * draw_bit g1 0 + 4 * draw_bit g1 1
                                  + 2 * draw_bit g1 2 + draw_bit g1 3))
    by (apply bits_string_value; assumption).
  assert (Hb : int_base2 sb = Ok (8 * draw_bit g2 0 + 4 * draw_bit g2 1
                                  + 2 * draw_bit g2 2 + draw_bit g2 3))
    by (apply bits_string_value; assumption).
  rewrite Ha, Hb.
  intros E1 E2. injection E1 as <- <-. injection E2 as <- <-.
  split.
  - intros Hs. rewrite Hs in Ha. rewrite Ha in Hb. now injection Hb.
  - intros Hn.
    destruct (bits_value_injective _ _ _ _ _ _ _ _ A0 A1 A2 A3 B0 B1 B2 B3 Hn)
      as (E0 & E1' & E2' & E3').
    unfold sa, sb. now rewrite E0, E1', E2', E3'.
Qed.

Lemma generate_binary_to_decimal_injective_witness :
  "0101" = "0101" <-> 5 = 5.
Proof.
  apply (generate_binary_to_decimal_injective
           (mk_rng (fun n => n) 0) (mk_rng (fun n => n) 2) "0101" "0101" 5 5);
    reflexivity.
Defined.

(** X21. Every number of [0 .. 15] is a possible result. *)
Theorem generate_binary_to_decimal_onto (n : Z) :
  0 <= n <= 15 ->
  exists g s, fst (generate_binary_to_decimal g) = Ok (s, n).
Proof.
  intros Hn.
  exists (mk_rng (fun i => Z.to_nat (Z.shiftr n (3 - Z.of_nat i))) 0).
  assert (Hall : Forall
            (fun m =>
               exists s,
                 fst (generate_binary_to_decimal
                        (mk_rng (fun i => Z.to_nat (Z.shiftr m (3 - Z.of_nat i)))
                                0))
                 = Ok (s, m))
            (map Z.of_nat (seq 0 16))).
  { repeat (constructor; [eexists; vm_compute; reflexivity|]). constructor. }
  rewrite Forall_forall in Hall. apply Hall.
  apply in_map_iff. exists (Z.to_nat n). split; [lia|].
  apply in_seq. lia.
Qed.

Lemma generate_binary_to_decimal_onto_witness :
  exists g s, fst (generate_binary_to_decimal g) = Ok (s, 11).
Proof. apply (generate_binary_to_decimal_onto 11). lia. Defined.

(** ** The Fibonacci loop *)

Lemma fib_nth (i j : nat) :
  (j < i)%nat -> py_index (map fib (seq 0 i)) (Z.of_nat j) = Ok (fib j).
Proof.
  intros Hj.
  destruct (py_index_in_range (map fib (seq 0 i)) (Z.of_nat j))
    as (x & Hx & Hnth).
  - unfold len. rewrite length_map, length_seq. lia.
  - rewrite Nat2Z.id, nth_error_map, nth_error_seq in Hnth.
    destruct (Nat.ltb_spec j i) as [_|Hge]; [|lia].
    simpl in Hnth. congruence.
Qed.

Lemma py_sum_snoc (xs : list Z) (x : Z) : py_sum (xs ++ [x]) = py_sum xs + x.
Proof. unfold py_sum. rewrite fold_left_app. reflexivity. Qed.

Lemma fib_append_step (i : nat) :
  (2 <= i)%nat ->
  fib_append (map fib (seq 0 i)) (Z.of_nat i) = Ok (map fib (seq 0 (S i))).
Proof.
  intros Hi. unfold fib_append.
  replace (Z.of_nat i - 1) with (Z.of_nat (i - 1)) by lia.
  replace (Z.of_nat i - 2) with (Z.of_nat (i - 2)) by lia.
  rewrite !fib_nth by lia. cbn [bind ret Monad_result].
  rewrite seq_S, map_app. simpl. do 2 f_equal.
  destruct i as [|[|i]]; [lia|lia|].
  replace (S (S i) - 1)%nat with (S i) by lia.
  replace (S (S i) - 2)%nat with i by lia.
  now rewrite fib_rec.
Qed.

Lemma fib_loop_from (m i : nat) :
  (2 <= i)%nat ->
  for_each fib_append (map fib (seq 0 i))
           (map (fun k => Z.of_nat i + Z.of_nat k) (seq 0 m))
  = Ok (map fib (seq 0 (i + m))).
Proof.
  revert i. induction m as [|m IH]; intros i Hi.
  - simpl. now rewrite Nat.add_0_r.
  - cbn [seq map for_each].
    replace (Z.of_nat i + Z.of_nat 0) with (Z.of_nat i) by lia.
    rewrite (fib_append_step i Hi). cbn [bind Monad_result].
    rewrite <- seq_shift, map_map.
    rewrite (map_ext (fun k => Z.of_nat i + Z.of_nat (S k))
                     (fun k => Z.of_nat (S i) + Z.of_nat k))
      by (intros k; lia).
    rewrite IH by lia. now rewrite Nat.add_succ_r.
Qed.

(** X22. The loop of [sum_first_50_fibonacci] is right for any bound, not only
    for 50: run over [range(2, n)] from the list [[0, 1]] it never indexes
    outside the list, it ends with the [n] Fibonacci numbers
    [F0 .. F(n-1)], and their sum is [F(n+1) - 1]. *)
Theorem fibonacci_loop_any_bound (n : nat) :
  (2 <= n)%nat ->
  for_each fib_append [0; 1] (py_range 2 (Z.of_nat n))
  = Ok (map fib (seq 0 n))
  /\ py_sum (map fib (seq 0 n)) = fib (S n) - 1.
Proof.
  intros Hn. split.
  - unfold py_range.
    replace (Z.to_nat (Z.of_nat n - 2)) with (n - 2)%nat by lia.
    change [0; 1] with (map fib (seq 0 2)).
    change 2 with (Z.of_nat 2).
    rewrite (fib_loop_from (n - 2) 2) by lia.
    do 3 f_equal. lia.
  - clear Hn. induction n as [|n IH]; [reflexivity|].
    rewrite seq_S, map_app. cbn [map]. rewrite py_sum_snoc, IH.
    change (0 + n)%nat with n. rewrite fib_rec. lia.
Qed.

Lemma fibonacci_loop_any_bound_witness :
  for_each fib_append [0; 1] (py_range 2 (Z.of_nat 7))
  = Ok (map fib (seq 0 7))
  /\ py_sum (map fib (seq 0 7)) = fib 8 - 1.
Proof. apply (fibonacci_loop_any_bound 7). lia. Defined.

(** ** Saving to the database *)

Lemma dict_update_get {V : Type} (p base : dict V) (k : string) (dflt : V) :
  NoDup (keys p) ->
  dict_get k dflt (dict_update base p)
  = if in_dec string_dec k (keys p) then dict_get k dflt p
    else dict_get k dflt base.
Proof.
  unfold dict_update. revert base.
  induction p as [|[k1 v1] p IH]; intros base Hnd; [reflexivity|].
  inversion Hnd as [|? ? Hnin Hnd']; subst.
  cbn [fold_left fst snd]. rewrite (IH _ Hnd'). cbn [keys map fst dict_get].
  fold (keys p).
  destruct (in_dec string_dec k (keys p)) as [Hin|Hnin'].
  - destruct (String.eqb_spec k1 k) as [->|Hne]; [contradiction|].
    destruct (in_dec string_dec k (k1 :: keys p)) as [_|Hc];
      [reflexivity|]. exfalso. apply Hc. now right.
  - destruct (String.eqb_spec k1 k) as [->|Hne].
    + rewrite dict_get_set_same.
      destruct (in_dec string_dec k (k :: keys p)) as [_|Hc];
        [reflexivity|]. exfalso. apply Hc. now left.
    + rewrite dict_get_set_other by congruence.
      destruct (in_dec string_dec k (k1 :: keys p)) as [[Hc|Hc]|_];
        [congruence|contradiction|reflexivity].
Qed.

Lemma run_calls_app (db_raises : list db_call -> option exn)
      (xs ys log : list db_call) :
  run_calls db_raises (xs ++ ys) log
  = match run_calls db_raises xs log with
    | (None, log') => run_calls db_raises ys log'
    | (Some e, log') => (Some e, log')
    end.
Proof.
  revert log. induction xs as [|x xs IH]; intros log; [reflexivity|].
  cbn [app run_calls]. destruct (db_raises (log ++ [x])%list); [reflexivity|].
  apply IH.
Qed.

(** The calls made are a prefix of the plan; nothing raised exactly when
    the whole plan was made, and otherwise the last call made is the one
    that raised. *)
Lemma run_calls_outcome (db_raises : list db_call -> option exn)
      (plan log : list db_call) :
  exists made rest,
    plan = (made ++ rest)%list
    /\ snd (run_calls db_raises plan log) = (log ++ made)%list
    /\ ((fst (run_calls db_raises plan log) = None /\ rest = []
         /\ (plan = [] \/ db_raises (log ++ plan)%list = None))
        \/ (exists e before c,
              fst (run_calls db_raises plan log) = Some e
              /\ made = (before ++ [c])%list
              /\ db_raises (log ++ made)%list = Some e)).
Proof.
  revert log. induction plan as [|c plan IH]; intros log.
  - exists [], []. simpl. rewrite app_nil_r.
    split; [reflexivity|]. split; [reflexivity|]. left. auto.
  - cbn [run_calls]. destruct (db_raises (log ++ [c])%list) as [e|] eqn:E.
    + exists [c], plan. simpl. split; [reflexivity|]. split; [reflexivity|].
      right. exists e, [], c. auto.
    + destruct (IH (log ++ [c])%list) as (made & rest & Hp & Hlog & Hres).
      exists (c :: made), rest. split; [simpl; now f_equal|].
      rewrite Hlog, <- app_assoc. split; [reflexivity|].
      destruct Hres as [(Hn & Hr & Hlast)|(e & before & c' & He & Hm & Hr)].
      * left. split; [assumption|]. split; [assumption|]. right.
        destruct Hlast as [->|Hlast]; [assumption|].
        now rewrite <- app_assoc in Hlast.
      * right. exists e, (c :: before), c'. split; [assumption|].
        split; [simpl; now f_equal|].
        rewrite <- Hr, <- app_assoc. reflexivity.
Qed.

Section PersistenceFacts.

Variable db_raises : list db_call -> option exn.

Lemma db_do_bind {A : Type} (c : db_call) (k : unit -> ST (list db_call) A)
      (log : list db_call) :
  bind (db_do db_raises c) k log
  = match db_raises (log ++ [c])%list with
    | Some e => (Raise e, (log ++ [c])%list)
    | None => k tt (log ++ [c])%list
    end.
Proof.
  cbn [bind Monad_ST]. unfold db_do.
  destruct (db_raises (log ++ [c])%list); reflexivity.
Qed.

Lemma st_for_upserts {A : Type} (entries : dict Z)
      (k : unit -> ST (list db_call) A) (log : list db_call) :
  bind (st_for entries
          (fun item =>
             let '(color, frequency) := item in
             db_do db_raises
                   (Execute insert_query [SqlText color; SqlInt frequency])))
       k log
  = match run_calls db_raises (map upsert_call entries) log with
    | (None, log') => k tt log'
    | (Some e, log') => (Raise e, log')
    end.
Proof.
  revert log. induction entries as [|[color frequency] entries IH];
    intros log; [reflexivity|].
  specialize (IH (log ++ [upsert_call (color, frequency)])%list).
  cbn [st_for map run_calls bind Monad_ST] in *.
  unfold db_do at 1. unfold upsert_call at 1 2 3. cbn [fst snd].
  unfold upsert_call at 1 2 in IH. cbn [fst snd] in IH.
  destruct (db_raises _) as [e|]; [reflexivity|].
  exact IH.
Qed.

Lemma save_to_postgresql_run
      (db_params : option (dict string)) (self : analyzer)
      (freqs : dict Z) (log : list db_call) :
  color_frequencies self = Some freqs -> freqs <> [] ->
  save_to_postgresql db_raises db_params self log
  = match run_calls db_raises
            (save_plan (connect_params db_params) freqs) log with
    | (None, log') => (Ok true, log')
    | (Some _, log') => (Ok false, log')
    end.
Proof.
  intros Hf Hne. unfold save_to_postgresql. rewrite Hf.
  destruct freqs as [|entry freqs]; [congruence|].
  cbn [truthy negb]. cbv iota zeta. fold default_db_params.
  fold (connect_params db_params).
  set (params := connect_params db_params).
  set (entries := entry :: freqs).
  unfold save_plan, st_try, items.
  cbn [app run_calls].
  rewrite db_do_bind.
  destruct (db_raises (log ++ [Connect params])%list); [reflexivity|].
  rewrite db_do_bind.
  destruct (db_raises ((log ++ [Connect params]) ++ [Cursor])%list);
    [reflexivity|].
  rewrite db_do_bind.
  destruct (db_raises _); [reflexivity|].
  rewrite st_for_upserts, run_calls_app.
  destruct (run_calls db_raises (map upsert_call entries) _) as [[e|] log1];
    [reflexivity|].
  cbn [run_calls].
  rewrite db_do_bind.
  destruct (db_raises (log1 ++ [Commit])%list); [reflexivity|].
  rewrite db_do_bind.
  destruct (db_raises ((log1 ++ [Commit]) ++ [CursorClose])%list);
    [reflexivity|].
  rewrite db_do_bind. destruct (db_raises _); reflexivity.
Qed.

(** X23. On a non-empty table [save_to_postgresql] never raises.  The calls
    it makes are the first calls of the complete sequence (connect,
    cursor, create table, one upsert per entry, commit, two closes), in
    that order; it returns [True] exactly when the whole sequence was made
    and no call raised, and when it returns [False] the last call made is
    one that raised. *)
Theorem save_to_postgresql_outcome
      (db_params : option (dict string)) (self : analyzer)
      (freqs : dict Z) (log : list db_call) :
  color_frequencies self = Some freqs -> freqs <> [] ->
  exists b made rest,
    save_to_postgresql db_raises db_params self log = (Ok b, (log ++ made)%list)
    /\ save_plan (connect_params db_params) freqs = (made ++ rest)%list
    /\ (b = true <-> rest = [] /\ db_raises (log ++ made)%list = None)
    /\ (b = false -> exists e, db_raises (log ++ made)%list = Some e).
Proof.
  intros Hf Hne. rewrite (save_to_postgresql_run _ _ _ _ Hf Hne).
  set (plan := save_plan (connect_params db_params) freqs).
  destruct (run_calls_outcome db_raises plan log)
    as (made & rest & Hplan & Hlog & Hres).
  destruct (run_calls db_raises plan log) as [[e|] log'] eqn:Hrun;
    cbn [fst snd] in *; subst log'.
  - exists false, made, rest. split; [reflexivity|]. split; [assumption|].
    destruct Hres as [(Hn & _)|(e' & before & c & He & Hm & Hr)];
      [discriminate|].
    split; [|intros _; now exists e'].
    split; [discriminate|]. intros [_ Hnone]. congruence.
  - exists true, made, rest. split; [reflexivity|]. split; [assumption|].
    destruct Hres as [(_ & Hr & Hlast)|(e' & before & c & He & _)];
      [|discriminate].
    split; [|discriminate].
    split; [|reflexivity]. intros _. split; [assumption|].
    subst rest. rewrite app_nil_r in Hplan. rewrite <- Hplan.
    destruct Hlast as [Hnil|Hlast]; [discriminate Hnil|assumption].
Qed.

(** X24. [save_to_postgresql] commits only after the connection, the cursor,
    the table creation and the upsert of every entry of the table have
    returned: a partial set of upserts is never committed. *)
Theorem save_to_postgresql_commit_after_all
      (db_params : option (dict string)) (self : analyzer)
      (freqs : dict Z) (log : list db_call) :
  color_frequencies self = Some freqs -> freqs <> [] ->
  exists b made,
    save_to_postgresql db_raises db_params self log = (Ok b, (log ++ made)%list)
    /\ (In Commit made ->
        exists tail,
          made = ([Connect (connect_params db_params); Cursor;
                   Execute create_table_query []]
                  ++ map upsert_call (items freqs) ++ Commit :: tail)%list).
Proof.
  intros Hf Hne. rewrite (save_to_postgresql_run _ _ _ _ Hf Hne).
  set (plan := save_plan (connect_params db_params) freqs).
  destruct (run_calls_outcome db_raises plan log)
    as (made & rest & Hplan & Hlog & _).
  exists (match fst (run_calls db_raises plan log) with
          | None => true | Some _ => false end), made.
  split.
  { destruct (run_calls db_raises plan log) as [[e|] log'];
      cbn [fst snd] in *; now subst log'. }
  intros Hin. unfold plan, save_plan in Hplan.
  rewrite app_assoc in Hplan. symmetry in Hplan.
  assert (Hbefore : ~ In Commit
            ([Connect (connect_params db_params); Cursor;
              Execute create_table_query []]
             ++ map upsert_call (items freqs))%list).
  { intros Hc. apply in_app_or in Hc. destruct Hc as [Hc|Hc].
    - simpl in Hc. intuition discriminate.
    - apply in_map_iff in Hc. destruct Hc as (item & Hc & _).
      discriminate Hc. }
  apply app_eq_app in Hplan.
  destruct Hplan as (l & [[Hmade Hrest]|[Hpre Hrest]]).
  - rewrite Hmade in Hin. apply in_app_or in Hin.
    destruct Hin as [Hin|Hin]; [contradiction|].
    destruct l as [|c l]; [destruct Hin|].
    inversion Hrest; subst c. exists l.
    now rewrite Hmade, <- app_assoc.
  - exfalso. apply Hbefore. rewrite Hpre. apply in_or_app. now left.
Qed.

(** X25. When no call raises, [save_to_postgresql] on the table derived from
    a non-empty sequence returns [True] after one upsert for each distinct
    label, carrying the label and its number of occurrences, in the order
    of first occurrence, between the table creation and the commit. *)
Theorem save_to_postgresql_upserts
      (db_params : option (dict string)) (self : analyzer)
      (cs : list string) (log : list db_call) :
  (forall calls, db_raises calls = None) ->
  derived self cs -> cs <> [] ->
  save_to_postgresql db_raises db_params self log
  = (Ok true,
     (log ++ [Connect (connect_params db_params); Cursor;
              Execute create_table_query []]
          ++ map (fun c => Execute insert_query
                                   [SqlText c; SqlInt (occurrences cs c)])
                 (keys (Counter cs))
          ++ [Commit; CursorClose; ConnClose])%list)
  /\ Permutation (keys (Counter cs)) (distinct cs).
Proof.
  intros Hok [_ Hf] Hne.
  assert (Hne' : Counter cs <> []).
  { pose proof (Counter_truthy cs) as Ht.
    destruct (Counter cs); destruct cs; simpl in Ht; congruence. }
  split; [|apply Counter_keys_distinct].
  rewrite (save_to_postgresql_run _ _ _ _ Hf Hne').
  assert (Hall : forall plan l, run_calls db_raises plan l = (None, (l ++ plan)%list)).
  { induction plan as [|c plan IH]; intros l; cbn [run_calls].
    - now rewrite app_nil_r.
    - rewrite Hok, IH, <- app_assoc. reflexivity. }
  rewrite Hall. unfold save_plan. do 4 f_equal.
  unfold items, keys. rewrite map_map.
  apply map_ext_in. intros [c n] Hin.
  destruct (Counter_items _ _ _ Hin) as [_ ->]. reflexivity.
Qed.

(** X26. The connection is opened with the defaults overridden by the
    caller's parameters: a key of [db_params] has the caller's value, any
    other key keeps its default, and with no parameters (or an empty
    dict) the defaults are used as they are. *)
Theorem save_to_postgresql_connect_params
      (db_params : option (dict string)) (self : analyzer)
      (freqs : dict Z) (log : list db_call) :
  color_frequencies self = Some freqs -> freqs <> [] ->
  match db_params with Some p => NoDup (keys p) | None => True end ->
  exists made,
    snd (save_to_postgresql db_raises db_params self log)
    = (log ++ Connect (connect_params db_params) :: made)%list
    /\ forall k dflt,
         dict_get k dflt (connect_params db_params)
         = match db_params with
           | Some p =>
               if in_dec string_dec k (keys p) then dict_get k dflt p
               else dict_get k dflt default_db_params
           | None => dict_get k dflt default_db_params
           end.
Proof.
  intros Hf Hne Hnd. rewrite (save_to_postgresql_run _ _ _ _ Hf Hne).
  unfold save_plan. cbn [app run_calls].
  set (c := Connect (connect_params db_params)).
  assert (Hmade : exists made,
             snd (match
                     match db_raises (log ++ [c])%list with
                     | Some e => (Some e, (log ++ [c])%list)
                     | None =>
                         run_calls db_raises
                           (Cursor :: Execute create_table_query []
                            :: (map upsert_call (items freqs)
                                ++ [Commit; CursorClose; ConnClose])%list)
                           (log ++ [c])%list
                     end
                   with
                   | (None, log') => (Ok true, log')
                   | (Some _, log') => (Ok false, log')
                   end) = (log ++ c :: made)%list).
  { destruct (db_raises (log ++ [c])%list).
    - exists []. reflexivity.
    - destruct (run_calls_outcome db_raises
                  (Cursor :: Execute create_table_query []
                   :: (map upsert_call (items freqs)
                       ++ [Commit; CursorClose; ConnClose])%list)
                  (log ++ [c])%list) as (made & rest & _ & Hlog & _).
      exists made.
      destruct (run_calls db_raises _ (log ++ [c])%list) as [[e|] log'];
        cbn [snd] in *; subst log'; now rewrite <- app_assoc. }
  destruct Hmade as (made & Hmade). exists made. split; [exact Hmade|].
  intros k dflt. unfold connect_params.
  destruct db_params as [p|]; [|reflexivity].
  destruct p as [|entry p]; [reflexivity|].
  cbn [truthy]. now apply dict_update_get.
Qed.

End PersistenceFacts.

Lemma save_to_postgresql_outcome_witness :
  exists b made rest,
    save_to_postgresql
      (fun calls => if Nat.eqb (List.length calls) 4 then Some ValueError else None)
      None (mk_analyzer None (Some ["B"; "A"]) (Some (Counter ["B"; "A"]))) []
    = (Ok b, ([] ++ made)%list)
    /\ save_plan (connect_params None) (Counter ["B"; "A"]) = (made ++ rest)%list
    /\ (b = true <->
        rest = []
        /\ (fun calls => if Nat.eqb (List.length calls) 4 then Some ValueError
                         else None) ([] ++ made)%list = None)
    /\ (b = false ->
        exists e,
          (fun calls => if Nat.eqb (List.length calls) 4 then Some ValueError
                        else None) ([] ++ made)%list = Some e).
Proof.
  apply (save_to_postgresql_outcome
           (fun calls => if Nat.eqb (List.length calls) 4 then Some ValueError
                         else None)
           None (mk_analyzer None (Some ["B"; "A"]) (Some (Counter ["B"; "A"])))
           (Counter ["B"; "A"]) []).
  - reflexivity.
  - discriminate.
Defined.

Lemma save_to_postgresql_commit_after_all_witness :
  exists b made,
    save_to_postgresql (fun _ => None) None
      (mk_analyzer None (Some ["B"; "A"]) (Some (Counter ["B"; "A"]))) []
    = (Ok b, ([] ++ made)%list)
    /\ (In Commit made ->
        exists tail,
          made = ([Connect (connect_params None); Cursor;
                   Execute create_table_query []]
                  ++ map upsert_call (items (Counter ["B"; "A"]))
                  ++ Commit :: tail)%list).
Proof.
  apply (save_to_postgresql_commit_after_all (fun _ => None) None
           (mk_analyzer None (Some ["B"; "A"]) (Some (Counter ["B"; "A"])))
           (Counter ["B"; "A"]) []).
  - reflexivity.
  - discriminate.
Defined.

Lemma save_to_postgresql_upserts_witness :
  save_to_postgresql (fun _ => None) None
    (mk_analyzer None (Some ["B"; "A"; "B"]) (Some (Counter ["B"; "A"; "B"]))) []
  = (Ok true,
     ([] ++ [Connect (connect_params None); Cursor;
             Execute create_table_query []]
         ++ map (fun c => Execute insert_query
                                  [SqlText c;
                                   SqlInt (occurrences ["B"; "A"; "B"] c)])
                (keys (Counter ["B"; "A"; "B"]))
         ++ [Commit; CursorClose; ConnClose])%list)
  /\ Permutation (keys (Counter ["B"; "A"; "B"])) (distinct ["B"; "A"; "B"]).
Proof.
  apply (save_to_postgresql_upserts (fun _ => None) None
           (mk_analyzer None (Some ["B"; "A"; "B"]) (Some (Counter ["B"; "A"; "B"])))
           ["B"; "A"; "B"] []).
  - reflexivity.
  - split; reflexivity.
  - discriminate.
Defined.

Lemma save_to_postgresql_connect_params_witness :
  exists made,
    snd (save_to_postgresql (fun _ => None)
           (Some [("host", "db.example"); ("port", "5433")])
           (mk_analyzer None (Some ["B"]) (Some (Counter ["B"]))) [])
    = ([] ++ Connect (connect_params
                        (Some [("host", "db.example"); ("port", "5433")]))
          :: made)%list
    /\ forall k dflt,
         dict_get k dflt
           (connect_params (Some [("host", "db.example"); ("port", "5433")]))
         = if in_dec string_dec k (keys [("host", "db.example"); ("port", "5433")])
           then dict_get k dflt [("host", "db.example"); ("port", "5433")]
           else dict_get k dflt default_db_params.
Proof.
  apply (save_to_postgresql_connect_params (fun _ => None)
           (Some [("host", "db.example"); ("port", "5433")])
           (mk_analyzer None (Some ["B"]) (Some (Counter ["B"])))
           (Counter ["B"]) []).
  - reflexivity.
  - discriminate.
  - repeat constructor; simpl; intuition discriminate.
Defined.
